(** * Pose projection pipeline of pedestrians-video-2-carla

    A shallow embedding of
    - [modules/layers/projection.py] (class [ProjectionModule]),
    - [walker_control/pose_projection.py] (class [PoseProjection]),
    - [data/carla/carla_2d3d_dataset.py] ([Carla2D3DIterableDataset.generate_batch]),
    - [data/mixed/mixed_dataset.py] ([MixedDataset.__getitem__]),
    together with the part of PyTorch's tensor interface these use.

    Tensors are a shape and a row-major list of IEEE binary64 scalars.
    Python exceptions are values of [PyError]; a computation returns a
    [Result] together with the list of calls it made into collaborators
    whose code is not part of the sources above (the pose, the camera,
    the denormaliser): the trace is what "called once per frame, in
    order" is stated about. *)

From Stdlib Require Import Floats.
From stdpp Require Import base list strings gmap.

Open Scope nat_scope.

(** ** Exceptions and results *)

Inductive PyError :=
| RuntimeError (msg : string)
| AttributeError
| IndexError
| KeyError (key : string)
| ValueError
| TypeError
| ZeroDivisionError
| MissingMetadataError.

Inductive Result (A : Type) :=
| Ok (a : A)
| Raise (e : PyError).
Arguments Ok {A} a.
Arguments Raise {A} e.

(** ** Tensors *)

Module Torch.

Record Tensor := mkTensor { shape : list nat; data : list float }.

Definition numel (s : list nat) : nat := foldr Nat.mul 1 s.
Definition ndim (t : Tensor) : nat := length (shape t).

(** A tensor holds exactly as many scalars as its shape says. *)
Definition wf (t : Tensor) : Prop := length (data t) = numel (shape t).
Definition is_tensor (s : list nat) (t : Tensor) : Prop :=
  shape t = s ∧ length (data t) = numel s.

(** [rows n k l]: the first [n] consecutive blocks of [k] scalars of [l]. *)
Fixpoint rows {A} (n k : nat) (l : list A) : list (list A) :=
  match n with
  | 0 => []
  | S n' => take k l :: rows n' k (drop k l)
  end.

(** [torch.zeros(s)], [torch.eye(n)], [torch.empty(s)].  The storage of
    [torch.empty] is uninitialised: its content is whatever [uninit]
    says, position by position. *)
Definition zeros (s : list nat) : Tensor :=
  mkTensor s (replicate (numel s) 0%float).

Definition eye (n : nat) : Tensor :=
  mkTensor [n; n]
    (concat ((λ i, (λ j, if decide (i = j) then 1%float else 0%float) <$> seq 0 n) <$> seq 0 n)).

Definition empty (uninit : nat → float) (s : list nat) : Tensor :=
  mkTensor s (uninit <$> seq 0 (numel s)).

Definition empty_like (uninit : nat → float) (t : Tensor) : Tensor :=
  empty uninit (shape t).

(** [len(t)]: the size of the first dimension; a 0-d tensor has none. *)
Definition len (t : Tensor) : Result nat :=
  match shape t with
  | n :: _ => Ok n
  | [] => Raise TypeError
  end.

(** [t.reshape(s)] *)
Definition reshape (t : Tensor) (s : list nat) : Result Tensor :=
  if decide (numel s = numel (shape t)) then Ok (mkTensor s (data t))
  else Raise (RuntimeError "shape is invalid for input size").

(** [t.repeat(reps)]: the tensor is tiled [reps] times along each
    dimension, after its shape is padded with leading ones to the length
    of [reps]. *)
Fixpoint tile (s reps : list nat) (d : list float) : list float :=
  match s, reps with
  | n :: s', r :: reps' =>
      concat (replicate r (concat (tile s' reps' <$> rows n (numel s') d)))
  | _, _ => d
  end.

Definition repeat (t : Tensor) (reps : list nat) : Result Tensor :=
  if decide (length reps < ndim t)
  then Raise (RuntimeError "number of repeat dims can not be smaller than number of tensor dims")
  else
    let s := replicate (length reps - ndim t) 1 ++ shape t in
    Ok (mkTensor (zip_with Nat.mul s reps) (tile s reps (data t))).

(** [torch.stack(ts)]: a new leading dimension over tensors of one shape. *)
Definition stack (ts : list Tensor) : Result Tensor :=
  match ts with
  | [] => Raise (RuntimeError "stack expects a non-empty TensorList")
  | t :: _ =>
      if decide (Forall (λ u, shape u = shape t) ts)
      then Ok (mkTensor (length ts :: shape t) (concat (data <$> ts)))
      else Raise (RuntimeError "stack expects each tensor to be equal size")
  end.

(** [t[i]] *)
Definition select0 (t : Tensor) (i : nat) : Result Tensor :=
  match shape t with
  | n :: rest =>
      if decide (i < n)
      then Ok (mkTensor rest (take (numel rest) (drop (i * numel rest) (data t))))
      else Raise IndexError
  | [] => Raise IndexError
  end.

(** [t[:, i]] *)
Definition select1 (t : Tensor) (i : nat) : Result Tensor :=
  match shape t with
  | n :: l :: rest =>
      if decide (i < l)
      then Ok (mkTensor (n :: rest)
                 (concat ((λ b, default [] (rows l (numel rest) b !! i))
                            <$> rows n (l * numel rest) (data t))))
      else Raise IndexError
  | _ => Raise IndexError
  end.

(** [t[:, i] = v].  The value must have the shape of the slice; PyTorch
    raises for a value that cannot be broadcast to it, and the
    collaborators of this module only ever hand over slice-shaped
    values, so every other shape is rejected here. *)
Definition assign1 (t : Tensor) (i : nat) (v : Tensor) : Result Tensor :=
  match shape t with
  | n :: l :: rest =>
      if decide (i < l) then
        if decide (shape v = n :: rest) then
          Ok (mkTensor (shape t)
                (concat (zip_with (λ b vb, concat (<[i := vb]> (rows l (numel rest) b)))
                           (rows n (l * numel rest) (data t))
                           (rows n (numel rest) (data v)))))
        else Raise (RuntimeError "shape mismatch")
      else Raise IndexError
  | _ => Raise IndexError
  end.

(** [t[..., c] = x] *)
Definition fill_last (t : Tensor) (c : nat) (x : float) : Result Tensor :=
  match last (shape t) with
  | Some d =>
      if decide (c < d)
      then Ok (mkTensor (shape t)
                 (imap (λ k y, if decide (k `mod` d = c) then x else y) (data t)))
      else Raise IndexError
  | None => Raise IndexError
  end.

(** Row-major position of a multi-index, and the scalar stored there. *)
Fixpoint offset (s idx : list nat) : option nat :=
  match s, idx with
  | [], [] => Some 0
  | d :: s', i :: idx' =>
      if decide (i < d) then (λ o, i * numel s' + o) <$> offset s' idx' else None
  | _, _ => None
  end.

Definition get (t : Tensor) (idx : list nat) : option float :=
  o ← offset (shape t) idx; data t !! o.

End Torch.

Import Torch.

(** ** Collaborators and the trace of calls into them *)

(** [ControlledPedestrian(world=None, age=.., gender=.., pose_cls=P3dPose,
    device=.., reference_pose=..)]: the arguments it was built from. *)
Record ControlledPedestrian := mkControlledPedestrian {
  age : string;
  gender : string;
  ped_device : string;
  reference_pose : option string
}.

(** [P3dPoseProjection(device=.., pedestrian=..)]: the camera object. *)
Record P3dPoseProjection := mkP3dPoseProjection {
  pp_device : string;
  pp_pedestrian : ControlledPedestrian
}.

Inductive Event :=
| NewPedestrian (p : ControlledPedestrian)
| NewPoseProjection (pp : P3dPoseProjection)
| PoseForward (pose : ControlledPedestrian) (changes prev_loc prev_rot : Tensor)
| PoseRelativeToAbsolute (pose : ControlledPedestrian) (loc rot : Tensor)
| ProjectionForward (pp : P3dPoseProjection) (abs_loc world_loc world_rot : Tensor)
| DenormalizeFromAbs (x : Tensor) (ages genders : list string)
| WorldFromChanges (shp : list nat) (loc_change rot_change : option Tensor).

(** A computation: how it ends, and the collaborator calls made until then
    (they stay made when it ends in an exception). *)
Definition M (A : Type) : Type := (Result A * list Event)%type.

Definition ret {A} (a : A) : M A := (Ok a, []).
Definition raise {A} (e : PyError) : M A := (Raise e, []).
Definition lift {A} (r : Result A) : M A := (r, []).
Definition call {A} (ev : Event) (a : A) : M A := (Ok a, [ev]).
Definition bind {A B} (m : M A) (f : A → M B) : M B :=
  match m with
  | (Ok a, tr) => let '(r, tr') := f a in (r, tr ++ tr')
  | (Raise e, tr) => (Raise e, tr)
  end.

#[global] Instance M_ret : MRet M := @ret.
#[global] Instance M_bind : MBind M := λ A B f m, bind m f.

(** [for x in xs: s = body(x, s)] *)
Fixpoint for_each {X S} (xs : list X) (body : X → S → M S) (s : S) : M S :=
  match xs with
  | [] => ret s
  | x :: xs' => s' ← body x s; for_each xs' body s'
  end.

(** [[f(x) for x in xs]] *)
Fixpoint comprehension {X Y} (xs : list X) (f : X → M Y) : M (list Y) :=
  match xs with
  | [] => ret []
  | x :: xs' => y ← f x; ys ← comprehension xs' f; ret (y :: ys)
  end.

(** [d[k]] on a dict, [l[i]] on a list *)
Definition dict_get {V} (d : gmap string V) (k : string) : M V :=
  match d !! k with
  | Some v => ret v
  | None => raise (KeyError k)
  end.

Definition list_get {V} (l : list V) (i : nat) : M V :=
  match l !! i with
  | Some v => ret v
  | None => raise IndexError
  end.

(** What [ProjectionModule] relies on and is defined elsewhere in the
    repository: the pose class [P3dPose] (its [tensors], [forward] and
    [relative_to_absolute]), the camera's [forward], the world
    accumulator for changes, the rescaling of
    [ReferenceSkeletonsDenormalize] (the points it returns for a batch
    whose instances all have a reference skeleton), and the projection
    transform (hips-neck normalisation by default). *)
Class Collaborators := {
  uninit : nat → float;
  tensors : ControlledPedestrian → Tensor * Tensor;
  P3dPose_forward :
    ControlledPedestrian → Tensor → Tensor → Tensor → Tensor * Tensor * Tensor;
  P3dPose_relative_to_absolute :
    ControlledPedestrian → Tensor → Tensor → Tensor * Tensor;
  P3dPoseProjection_forward :
    P3dPoseProjection → Tensor → Tensor → Tensor → Tensor;
  calculate_world_from_changes :
    list nat → option Tensor → option Tensor → option Tensor → option Tensor →
    Result (Tensor * Tensor);
  denormalized_points : Tensor → list string → list string → Tensor;
  projection_transform : Tensor → Tensor
}.

(** Modelled from the spec: the age and gender categories for which
    [ReferenceSkeletonsDenormalize], which is not under src/, has a
    reference skeleton ("subject attributes such as age/gender category,
    used to look up a reference skeleton scale").  They are the
    categories the generator of the repository draws
    ([carla_2d3d_dataset.py], lines 172-173). *)
Definition reference_skeletons : list (string * string) :=
  [("adult", "female"); ("adult", "male"); ("child", "female"); ("child", "male")].

(** Modelled from the spec: the metadata entry of instance [i] of a
    batch is there when the ages and the genders both have a value at
    position [i] and the two name a reference skeleton. *)
Definition has_reference_skeleton (ages genders : list string) (i : nat) : bool :=
  match ages !! i, genders !! i with
  | Some a, Some g => bool_decide ((a, g) ∈ reference_skeletons)
  | _, _ => false
  end.

(** Modelled from the spec: [ReferenceSkeletonsDenormalize.from_abs] is
    not under src/.  "Denormalization requires per-instance reference
    metadata [...] - fails if the metadata entry is missing for a given
    instance"; the failure is the spec's MissingMetadataError, "surfaced
    per-instance".  An instance is a row of the batch.  What is returned
    when no entry is missing is [denormalized_points]. *)
Definition from_abs `{Collaborators} (x : Tensor) (ages genders : list string)
    : Result Tensor :=
  if forallb (has_reference_skeleton ages genders) (seq 0 (default 0 (head (shape x))))
  then Ok (denormalized_points x ages genders)
  else Raise MissingMetadataError.

(** ** [ProjectionModule] *)

Module MovementsModelOutputType.
Inductive t :=
| pose_changes
| absolute_loc
| absolute_loc_rot
| relative_rot.
End MovementsModelOutputType.

Module TrajectoryModelOutputType.
Inductive t :=
| changes
| loc_rot.
End TrajectoryModelOutputType.

(** The fields of the module; the four "set on every batch" are [None]
    until [on_batch_start] has run. *)
Record ProjectionModule := mkProjectionModule {
  movements_output_type : MovementsModelOutputType.t;
  trajectory_output_type : TrajectoryModelOutputType.t;
  __pedestrians : option (list ControlledPedestrian);
  __pose_projection : option P3dPoseProjection;
  __world_locations : option Tensor;
  __world_rotations : option Tensor
}.

Definition __init__ (movements : MovementsModelOutputType.t)
    (trajectory : TrajectoryModelOutputType.t) : ProjectionModule :=
  mkProjectionModule movements trajectory None None None None.

(** [pose_inputs_batch : Union[Tensor, Tuple[Tensor, Tensor]]] *)
Inductive PoseInputs :=
| TensorInput (t : Tensor)
| TupleInput (loc rot : Tensor).

(** [(frames, _, meta) = batch]; [frames.device] is carried along. *)
Record Batch := mkBatch {
  frames : Tensor;
  frames_device : string;
  meta : gmap string (list string)
}.

(** [(a, b, *_) = s] and [(a, b, c, *_) = s] *)
Definition unpack2 (s : list nat) : M (nat * nat) :=
  match s with
  | a :: b :: _ => ret (a, b)
  | _ => raise ValueError
  end.

Definition unpack3 (s : list nat) : M (nat * nat * nat) :=
  match s with
  | a :: b :: c :: _ => ret (a, b, c)
  | _ => raise ValueError
  end.

(** [x.ndim] and [x.shape]: a tuple has neither. *)
Definition input_ndim (x : PoseInputs) : M nat :=
  match x with
  | TensorInput t => ret (ndim t)
  | TupleInput _ _ => raise AttributeError
  end.

Definition input_tensor (x : PoseInputs) : M Tensor :=
  match x with
  | TensorInput t => ret t
  | TupleInput _ _ => raise AttributeError
  end.

(** [x[0]], [x[1]] on a tuple or on a tensor *)
Definition input_item (x : PoseInputs) (i : nat) : M Tensor :=
  match x with
  | TupleInput a b =>
      match i with 0 => ret a | 1 => ret b | _ => raise IndexError end
  | TensorInput t => lift (select0 t i)
  end.

Section Projection.
Context `{Collaborators}.

(** [on_batch_start]: the fields are assigned one after the other, so an
    exception leaves the earlier assignments in place.  The result is
    the module afterwards and how the call ended. *)
Definition new_pedestrian (b : Batch) (idx : nat) : M ControlledPedestrian :=
  ages ← dict_get (meta b) "age";
  a ← list_get ages idx;
  genders ← dict_get (meta b) "gender";
  g ← list_get genders idx;
  r ← match meta b !! "reference_pose" with
      | Some poses => p ← list_get poses idx; ret (Some p)
      | None => ret None
      end;
  let p := mkControlledPedestrian a g (frames_device b) r in
  call (NewPedestrian p) p.

Definition initial_world_rotations (batch_size : nat) : Result Tensor :=
  match reshape (eye 3) [1; 3; 3] with
  | Ok e => repeat e [batch_size; 1; 1]
  | Raise e => Raise e
  end.

Definition on_batch_start (self : ProjectionModule) (batch : Batch) (batch_idx : nat)
    : ProjectionModule * M unit :=
  match (batch_size ← lift (len (frames batch));
         peds ← comprehension (seq 0 batch_size) (new_pedestrian batch);
         ret (batch_size, peds)) with
  | (Raise e, tr) => (self, (Raise e, tr))
  | (Ok (batch_size, peds), tr) =>
      let self1 := mkProjectionModule (movements_output_type self) (trajectory_output_type self)
                     (Some peds) (__pose_projection self)
                     (__world_locations self) (__world_rotations self) in
      match peds !! 0 with
      | None => (self1, (Raise IndexError, tr))
      | Some p0 =>
          let pp := mkP3dPoseProjection (frames_device batch) p0 in
          let tr2 := tr ++ [NewPoseProjection pp] in
          let self2 := mkProjectionModule (movements_output_type self) (trajectory_output_type self)
                         (Some peds) (Some pp)
                         (Some (zeros [batch_size; 3])) (__world_rotations self) in
          match initial_world_rotations batch_size with
          | Raise e => (self2, (Raise e, tr2))
          | Ok wr =>
              (mkProjectionModule (movements_output_type self) (trajectory_output_type self)
                 (Some peds) (Some pp) (Some (zeros [batch_size; 3])) (Some wr),
               (Ok tt, tr2))
          end
      end
  end.

(** [get_reference_tensors]: the [zip] of no pedestrian cannot be
    unpacked into two; iterating [None] is a [TypeError]. *)
Definition get_reference_tensors (self : ProjectionModule) : M (Tensor * Tensor) :=
  match __pedestrians self with
  | None => raise TypeError
  | Some [] => raise ValueError
  | Some peds =>
      prev_relative_loc ← lift (stack ((λ p, (tensors p).1) <$> peds));
      prev_relative_rot ← lift (stack ((λ p, (tensors p).2) <$> peds));
      ret (prev_relative_loc, prev_relative_rot)
  end.

(** [self.__pedestrians[0].current_pose]: the pose is named by its owner. *)
Definition first_pose (self : ProjectionModule) : M ControlledPedestrian :=
  match __pedestrians self with
  | None => raise TypeError
  | Some peds => list_get peds 0
  end.

Definition _calculate_abs_from_pose_changes (self : ProjectionModule)
    (pose_inputs_batch : PoseInputs) : M (Tensor * option Tensor) :=
  x ← input_tensor pose_inputs_batch;
  '(batch_size, clip_length, points) ← unpack3 (shape x);
  '(prev_relative_loc, prev_relative_rot) ← get_reference_tensors self;
  let absolute_loc := empty uninit [batch_size; clip_length; points; 3] in
  let absolute_rot := empty uninit [batch_size; clip_length; points; 3; 3] in
  pose ← first_pose self;
  '(absolute_loc, absolute_rot, _) ←
    for_each (seq 0 clip_length)
      (λ i '(absolute_loc, absolute_rot, prev_relative_rot),
         changes ← lift (select1 x i);
         '(loc, rot, new_relative_rot) ←
           call (PoseForward pose changes prev_relative_loc prev_relative_rot)
                (P3dPose_forward pose changes prev_relative_loc prev_relative_rot);
         absolute_loc ← lift (assign1 absolute_loc i loc);
         absolute_rot ← lift (assign1 absolute_rot i rot);
         ret (absolute_loc, absolute_rot, new_relative_rot))
      (absolute_loc, absolute_rot, prev_relative_rot);
  ret (absolute_loc, Some absolute_rot).

(** The denormaliser is handed a tensor; a tuple, which [project_pose]
    has refused by then, has no tensor interface. *)
Definition _calculate_abs_from_abs_loc_output (self : ProjectionModule)
    (pose_inputs_batch : PoseInputs) : M (Tensor * option Tensor) :=
  peds ← match __pedestrians self with
         | Some peds => ret peds
         | None => raise TypeError
         end;
  x ← input_tensor pose_inputs_batch;
  r ← call (DenormalizeFromAbs x (age <$> peds) (gender <$> peds))
           (from_abs x (age <$> peds) (gender <$> peds));
  absolute_loc ← lift r;
  ret (absolute_loc, None).

Definition _calculate_abs_from_abs_loc_rot_output (self : ProjectionModule)
    (pose_inputs_batch : PoseInputs) : M (Tensor * option Tensor) :=
  x0 ← input_item pose_inputs_batch 0;
  '(absolute_loc, _) ← _calculate_abs_from_abs_loc_output self (TensorInput x0);
  absolute_rot ← input_item pose_inputs_batch 1;
  ret (absolute_loc, Some absolute_rot).

(** [tuple([1, *s][-3:])] *)
Definition shape_3d (s : list nat) : list nat :=
  drop (length (1 :: s) - 3) (1 :: s).

(** Lines 143-148: the reference relative locations, brought to the batch
    size of the input.  [int(batch_size / d)] is the integer quotient. *)
Definition reference_locations (self : ProjectionModule) (batch_size : nat) : M Tensor :=
  '(prev_relative_loc, _) ← get_reference_tensors self;
  let s3 := shape_3d (shape prev_relative_loc) in
  reshaped ← lift (reshape prev_relative_loc s3);
  d ← list_get s3 0;
  k ← (if decide (d = 0) then raise ZeroDivisionError else ret (batch_size `div` d));
  lift (repeat reshaped [k; 1; 1]).

Definition _calculate_abs_from_relative_rot (self : ProjectionModule)
    (pose_inputs_batch : PoseInputs) : M (Tensor * option Tensor) :=
  x ← input_tensor pose_inputs_batch;
  '(batch_size, clip_length, points) ← unpack3 (shape x);
  prev_relative_loc ← reference_locations self batch_size;
  let absolute_loc := empty uninit [batch_size; clip_length; points; 3] in
  let absolute_rot := empty uninit [batch_size; clip_length; points; 3; 3] in
  pose ← first_pose self;
  '(absolute_loc, absolute_rot) ←
    for_each (seq 0 clip_length)
      (λ i '(absolute_loc, absolute_rot),
         rotations ← lift (select1 x i);
         '(loc, rot) ←
           call (PoseRelativeToAbsolute pose prev_relative_loc rotations)
                (P3dPose_relative_to_absolute pose prev_relative_loc rotations);
         absolute_loc ← lift (assign1 absolute_loc i loc);
         absolute_rot ← lift (assign1 absolute_rot i rot);
         ret (absolute_loc, absolute_rot))
      (absolute_loc, absolute_rot);
  ret (absolute_loc, Some absolute_rot).

Definition _calculate_world_from_changes (self : ProjectionModule) (absolute_loc : Tensor)
    (world_loc_change_batch world_rot_change_batch : option Tensor) : M (Tensor * Tensor) :=
  r ← call (WorldFromChanges (shape absolute_loc) world_loc_change_batch world_rot_change_batch)
           (calculate_world_from_changes (shape absolute_loc)
              world_loc_change_batch world_rot_change_batch
              (__world_locations self) (__world_rotations self));
  lift r.

Definition _calculate_world_from_loc_rot (self : ProjectionModule) (absolute_loc : Tensor)
    (world_loc_inputs world_rot_inputs : option Tensor) : M (Tensor * Tensor) :=
  '(batch_size, clip_length) ← unpack2 (shape absolute_loc);
  let world_loc_inputs :=
    match world_loc_inputs with
    | None => zeros [batch_size; clip_length; 3]
    | Some t => t
    end in
  world_rot_inputs ←
    match world_rot_inputs with
    | None => e ← lift (reshape (eye 3) [1; 1; 3; 3]);
              lift (repeat e [batch_size; clip_length; 1; 1])
    | Some t => ret t
    end;
  ret (world_loc_inputs, world_rot_inputs).

(** The strategies bound in [__init__]. *)
Definition __calculate_abs (self : ProjectionModule) : PoseInputs → M (Tensor * option Tensor) :=
  match movements_output_type self with
  | MovementsModelOutputType.pose_changes => _calculate_abs_from_pose_changes self
  | MovementsModelOutputType.absolute_loc => _calculate_abs_from_abs_loc_output self
  | MovementsModelOutputType.absolute_loc_rot => _calculate_abs_from_abs_loc_rot_output self
  | MovementsModelOutputType.relative_rot => _calculate_abs_from_relative_rot self
  end.

Definition __calculate_world (self : ProjectionModule)
    : Tensor → option Tensor → option Tensor → M (Tensor * Tensor) :=
  match trajectory_output_type self with
  | TrajectoryModelOutputType.changes => _calculate_world_from_changes self
  | TrajectoryModelOutputType.loc_rot => _calculate_world_from_loc_rot self
  end.

(** [project_pose], lines 98-106: the checks on the input. *)
Definition check_pose_inputs (self : ProjectionModule) (pose_inputs_batch : PoseInputs) : M unit :=
  match movements_output_type self with
  | MovementsModelOutputType.pose_changes =>
      n ← input_ndim pose_inputs_batch;
      if decide (n < 5)
      then raise (RuntimeError "Pose changes should have shape of (N - batch_size, L - clip_length, B - bones, 3, 3 - rotations as rotation matrices)")
      else ret tt
  | MovementsModelOutputType.absolute_loc =>
      n ← input_ndim pose_inputs_batch;
      if decide (n < 4)
      then raise (RuntimeError "Absolute location should have shape of (N - batch_size, L - clip_length, B - bones, 3 - absolute location coordinates)")
      else ret tt
  | MovementsModelOutputType.absolute_loc_rot =>
      match pose_inputs_batch with
      | TupleInput _ _ => ret tt
      | TensorInput _ => raise (RuntimeError "Absolute location with rotation should be a Tuple of tensors.")
      end
  | MovementsModelOutputType.relative_rot => ret tt
  end.

(** [project_pose], lines 108-122: composition, world placement and the
    projection of every frame. *)
Definition project_frames (self : ProjectionModule) (pose_inputs_batch : PoseInputs)
    (world_loc_change_batch world_rot_change_batch : option Tensor)
    : M (Tensor * Tensor * option Tensor * Tensor * Tensor) :=
  '(absolute_loc, absolute_rot) ← __calculate_abs self pose_inputs_batch;
  '(world_loc, world_rot) ←
    __calculate_world self absolute_loc world_loc_change_batch world_rot_change_batch;
  let projections := empty_like uninit absolute_loc in
  clip_length ← list_get (shape absolute_loc) 1;
  projections ←
    for_each (seq 0 clip_length)
      (λ i projections,
         pp ← match __pose_projection self with
              | Some pp => ret pp
              | None => raise AttributeError
              end;
         a ← lift (select1 absolute_loc i);
         wl ← lift (select1 world_loc i);
         wr ← lift (select1 world_rot i);
         p ← call (ProjectionForward pp a wl wr) (P3dPoseProjection_forward pp a wl wr);
         lift (assign1 projections i p))
      projections;
  ret (projections, absolute_loc, absolute_rot, world_loc, world_rot).

Definition project_pose (self : ProjectionModule) (pose_inputs_batch : PoseInputs)
    (world_loc_change_batch world_rot_change_batch : option Tensor)
    : M (Tensor * Tensor * option Tensor * Tensor * Tensor) :=
  _ ← check_pose_inputs self pose_inputs_batch;
  project_frames self pose_inputs_batch world_loc_change_batch world_rot_change_batch.

Definition forward (self : ProjectionModule) (pose_inputs : PoseInputs)
    (world_loc_inputs world_rot_inputs : option Tensor)
    : M (Tensor * Tensor * Tensor * option Tensor * Tensor * Tensor) :=
  '(projected_pose, absolute_pose_loc, absolute_pose_rot, world_loc, world_rot) ←
    project_pose self pose_inputs world_loc_inputs world_rot_inputs;
  let normalized_projection := projection_transform projected_pose in
  ret (projected_pose, normalized_projection, absolute_pose_loc, absolute_pose_rot,
       world_loc, world_rot).

End Projection.

(** ** [PoseProjection] ([walker_control/pose_projection.py]) *)

Module Carla.
Record Location := mkLocation { x : float; y : float; z : float }.
Record Rotation := mkRotation { pitch : float; yaw : float; roll : float }.
Record Transform := mkTransform { location : Location; rotation : Rotation }.
(** [carla.Rotation(yaw=v)]: pitch and roll keep their default, 0.0 *)
Definition Rotation_of_yaw (v : float) : Rotation := mkRotation 0 v 0.
End Carla.

(** The camera of [cameratransform]: where it stands and how it looks. *)
Record Camera := mkCamera {
  pos_x_m : float;
  pos_y_m : float;
  elevation_m : float;
  heading_deg : float;
  tilt_deg : float
}.

(** What [PoseProjection] reads of its pedestrian: the world transform and
    the ordered dict of absolute bone transforms of the current pose. *)
Record PedestrianView := mkPedestrianView {
  transform : Carla.Transform;
  current_pose_absolute : list (string * Carla.Transform)
}.

Record PoseProjection := mkPoseProjection {
  _pedestrian : PedestrianView;
  camera : Camera;
  _image_size : nat * nat
}.

(** [carla.Transform.transform] and the rectilinear projection of
    [cameratransform] are libraries: a point is either behind the camera
    plane or not, and has an image either way. *)
Class CameraLibrary := {
  Transform_transform : Carla.Transform → Carla.Location → Carla.Location;
  behind_camera : Camera → float * float * float → bool;
  image_point : Camera → float * float * float → float * float
}.

Section PoseProjection.
Context `{CameraLibrary}.

(** [Camera.imageFromSpace(points, hide_backpoints=True)]: with
    [hide_backpoints] the points behind the camera come back as NaN. *)
Definition imageFromSpace (cam : Camera) (points : list (float * float * float))
    (hide_backpoints : bool) : list (float * float) :=
  (λ p, if hide_backpoints && behind_camera cam p then (nan, nan) else image_point cam p)
    <$> points.

Definition root_transform (self : PoseProjection) : Carla.Transform :=
  Carla.mkTransform
    (Carla.mkLocation
       (Carla.y (Carla.location (transform (_pedestrian self))))
       (Carla.x (Carla.location (transform (_pedestrian self))))
       (Carla.z (Carla.location (transform (_pedestrian self)))))
    (Carla.Rotation_of_yaw (- Carla.yaw (Carla.rotation (transform (_pedestrian self))))%float).

Definition relativeBones (self : PoseProjection) : list Carla.Location :=
  (λ bone : string * Carla.Transform,
     Transform_transform (root_transform self)
       (Carla.mkLocation
          (- Carla.x (Carla.location bone.2))%float
          (Carla.y (Carla.location bone.2))
          (Carla.z (Carla.location bone.2))))
    <$> current_pose_absolute (_pedestrian self).

Definition current_pose_to_points (self : PoseProjection) : list (float * float) :=
  imageFromSpace (camera self)
    ((λ bone, (Carla.x bone, Carla.y bone, Carla.z bone)) <$> relativeBones self)
    false.

End PoseProjection.

(** ** [Carla2D3DIterableDataset.generate_batch] *)

(** [euler_angles_to_matrix] of pytorch3d and [process_projection_2d] of
    [Projection2DMixin] are not under src/. *)
Class GeneratorCollaborators := {
  euler_angles_to_matrix : Tensor → Tensor;
  process_projection_2d : Tensor → M (Tensor * gmap string Tensor)
}.

(** What the random number generators gave in lines 148-173: the Euler
    angles of the pose changes and of the world rotation changes, after
    the random entries are written, and the ages and genders. *)
Record Draws := mkDraws {
  drawn_pose_changes : Tensor;
  drawn_world_rot_change : Tensor;
  drawn_age : list string;
  drawn_gender : list string
}.

Record Carla2D3DIterableDataset := mkCarla2D3DIterableDataset {
  clip_length : nat;
  batch_size : nat;
  projection : ProjectionModule
}.

Section Generator.
Context `{Collaborators} `{GeneratorCollaborators}.

(** [self.projection], called with keywords, is [nn.Module.__call__],
    which hands them to [forward(self, pose_inputs, world_loc_inputs=None,
    world_rot_inputs=None)] of [ProjectionModule].  Python binds them by
    name: a keyword that names no parameter of [forward] is a
    [TypeError], and so is a call without [pose_inputs]; the body does
    not run then.  The keywords of one call have different names. *)
Definition forward_parameters : list string :=
  ["pose_inputs"; "world_loc_inputs"; "world_rot_inputs"].

Definition keyword (kwargs : list (string * Tensor)) (name : string) : option Tensor :=
  (list_to_map kwargs : gmap string Tensor) !! name.

Definition __call__ (self : ProjectionModule) (kwargs : list (string * Tensor))
    : M (Tensor * Tensor * Tensor * option Tensor * Tensor * Tensor) :=
  if decide (Forall (λ kw, kw.1 ∈ forward_parameters) kwargs)
  then match keyword kwargs "pose_inputs" with
       | Some pose_inputs =>
           forward self (TensorInput pose_inputs)
             (keyword kwargs "world_loc_inputs") (keyword kwargs "world_rot_inputs")
       | None => raise TypeError
       end
  else raise TypeError.

(** [a, b = t] for the tuple of six that [forward] returns: too many
    values to unpack. *)
Definition unpack_two_of_six
    (t : Tensor * Tensor * Tensor * option Tensor * Tensor * Tensor)
    : M (Tensor * gmap string Tensor) :=
  raise ValueError.

Definition generate_batch (self : Carla2D3DIterableDataset) (batch_size_arg : option nat)
    (draws : Draws)
    : M (Tensor * gmap string Tensor * gmap string (list string)) :=
  let batch_size := default (batch_size self) batch_size_arg in
  let world_loc_change_batch := zeros [batch_size; clip_length self; 3] in
  let pose_changes_batch := euler_angles_to_matrix (drawn_pose_changes draws) in
  let world_rot_change_batch := euler_angles_to_matrix (drawn_world_rot_change draws) in
  let meta : gmap string (list string) :=
    <["gender" := drawn_gender draws]> (<["age" := drawn_age draws]> ∅) in
  let '(projection', started) :=
    on_batch_start (projection self) (mkBatch pose_changes_batch "cpu" meta) 0 in
  _ ← started;
  result ←
    __call__ projection'
      [("pose_inputs_batch", pose_changes_batch);
       ("world_rot_change_batch", world_rot_change_batch);
       ("world_loc_change_batch", world_loc_change_batch)];
  '(orig_projection_2d, projection_outputs) ← unpack_two_of_six result;
  orig_projection_2d ← lift (fill_last orig_projection_2d 2 1%float);
  '(projection_2d, projection_targets) ← process_projection_2d orig_projection_2d;
  ret (projection_2d,
       projection_outputs ∪
         <["world_rot_changes" := world_rot_change_batch]>
           (<["world_loc_changes" := world_loc_change_batch]>
              (<["pose_changes" := pose_changes_batch]> projection_targets)),
       meta).

End Generator.

(** ** [MixedDataset.__getitem__] *)

Module Numpy.
Inductive dtype := str_ | float64 | int64 | bool_.
End Numpy.

Inductive MetaValue :=
| MStr (s : string)
| MFloat (f : float)
| MInt (z : Z)
| MBool (b : bool).

(** [numpy.array([numpy.nan], dtype=d).item()]: NaN reads 'nan' as a
    string and True as a boolean; it has no integer value. *)
Definition nan_item (d : Numpy.dtype) : Result MetaValue :=
  match d with
  | Numpy.str_ => Ok (MStr "nan")
  | Numpy.float64 => Ok (MFloat nan)
  | Numpy.int64 => Raise ValueError
  | Numpy.bool_ => Ok (MBool true)
  end.

(** [torch.from_numpy(numpy.full(shape, numpy.nan, dtype=d))]:
    [numpy.full] casts the fill value to the dtype without a check, so
    NaN becomes the least 64-bit integer and [True]; torch has no string
    tensors. *)
Definition full_nan (d : Numpy.dtype) (s : list nat) : Result Tensor :=
  match d with
  | Numpy.str_ => Raise TypeError
  | Numpy.float64 => Ok (mkTensor s (replicate (numel s) nan))
  | Numpy.int64 => Ok (mkTensor s (replicate (numel s) (-9223372036854775808)%float))
  | Numpy.bool_ => Ok (mkTensor s (replicate (numel s) 1%float))
  end.

Record Item := mkItem {
  projection_2d : Tensor;
  targets : gmap string Tensor;
  item_meta : gmap string MetaValue
}.

(** [items]: what [ConcatDataset.__getitem__] serves, index by index. *)
Record MixedDataset := mkMixedDataset {
  items : list Item;
  _targets_template : list (string * (Numpy.dtype * list nat));
  _meta_template : option (list (string * Numpy.dtype))
}.

Section MixedDataset.
(** [numpy.array([v], dtype=d).item()] for a value that is there *)
Variable array_item : MetaValue → Numpy.dtype → Result MetaValue.

Definition __getitem__ (self : MixedDataset) (index : nat)
    : M (Tensor * gmap string Tensor * gmap string MetaValue) :=
  item ← list_get (items self) index;
  common_targets ←
    for_each (_targets_template self)
      (λ '(key, (template_dtype, template_shape)) (common_targets : gmap string Tensor),
         match targets item !! key with
         | Some v => ret (<[key := v]> common_targets)
         | None => v ← lift (full_nan template_dtype template_shape);
                   ret (<[key := v]> common_targets)
         end) ∅;
  common_meta ←
    match _meta_template self with
    | None => ret ∅
    | Some template =>
        for_each template
          (λ '(key, template_dtype) (common_meta : gmap string MetaValue),
             match item_meta item !! key with
             | Some v => v' ← lift (array_item v template_dtype);
                         ret (<[key := v']> common_meta)
             | None => v' ← lift (nan_item template_dtype);
                       ret (<[key := v']> common_meta)
             end) ∅
    end;
  ret (projection_2d item, common_targets, common_meta).

End MixedDataset.

(** ** What the claims are stated with *)

(** [torch.unbind(t, dim=1)]: the frames of a [(N, L, ...)] tensor. *)
Definition unbind1 (t : Tensor) : list Tensor :=
  match shape t with
  | n :: l :: rest =>
      (λ i, mkTensor (n :: rest)
              (concat ((λ b, default [] (rows l (numel rest) b !! i))
                         <$> rows n (l * numel rest) (data t))))
        <$> seq 0 l
  | _ => []
  end.

Section Recurrence.
Context `{Collaborators}.

(** The relative rotation after the changes [cs] were composed, one
    after the other, onto [rot]. *)
Definition pose_after (pose : ControlledPedestrian) (loc rot : Tensor)
    (cs : list Tensor) : Tensor :=
  foldl (λ r c, (P3dPose_forward pose c loc r).2) rot cs.

(** What [forward] and [relative_to_absolute] return for a frame of
    [n] clips and [b] bones: locations [(n, b, 3)] and rotations
    [(n, b, 3, 3)]. *)
Definition forward_contract : Prop :=
  ∀ pose c loc rot n b rest,
    shape c = n :: b :: rest →
    is_tensor [n; b; 3] (P3dPose_forward pose c loc rot).1.1 ∧
    is_tensor [n; b; 3; 3] (P3dPose_forward pose c loc rot).1.2.

Definition relative_to_absolute_contract : Prop :=
  ∀ pose loc c n b rest,
    shape c = n :: b :: rest →
    is_tensor [n; b; 3] (P3dPose_relative_to_absolute pose loc c).1 ∧
    is_tensor [n; b; 3; 3] (P3dPose_relative_to_absolute pose loc c).2.

End Recurrence.

(** ** Reading a trace *)

(** The camera objects a trace creates, and the frames it projects. *)
Definition created_projections (tr : list Event) : list P3dPoseProjection :=
  omap (λ e, match e with NewPoseProjection pp => Some pp | _ => None end) tr.

Definition projection_calls (tr : list Event)
    : list (P3dPoseProjection * Tensor * Tensor * Tensor) :=
  omap (λ e, match e with
             | ProjectionForward pp a w r => Some (pp, a, w, r)
             | _ => None
             end) tr.

(** An event that creates no object and, if it projects, projects
    through the camera [pp]. *)
Definition through_camera (pp : P3dPoseProjection) (e : Event) : Prop :=
  match e with
  | NewPedestrian _ | NewPoseProjection _ => False
  | ProjectionForward pp' _ _ _ => pp' = pp
  | _ => True
  end.

(** An event of the composition of the absolute pose or of the world
    placement: neither a creation nor a projection. *)
Definition composition_event (e : Event) : Prop :=
  match e with
  | NewPedestrian _ | NewPoseProjection _ | ProjectionForward _ _ _ _ => False
  | _ => True
  end.

(** The three mismatches [project_pose] checks for, and the inputs that
    pass its checks. *)
Definition breaks_contract (ty : MovementsModelOutputType.t) (x : PoseInputs) : Prop :=
  match ty, x with
  | MovementsModelOutputType.pose_changes, TensorInput t => ndim t < 5
  | MovementsModelOutputType.absolute_loc, TensorInput t => ndim t < 4
  | MovementsModelOutputType.absolute_loc_rot, TensorInput _ => True
  | _, _ => False
  end.

Definition meets_contract (ty : MovementsModelOutputType.t) (x : PoseInputs) : Prop :=
  match ty, x with
  | MovementsModelOutputType.pose_changes, TensorInput t => 5 ≤ ndim t
  | MovementsModelOutputType.absolute_loc, TensorInput t => 4 ≤ ndim t
  | MovementsModelOutputType.absolute_loc_rot, TupleInput _ _ => True
  | MovementsModelOutputType.relative_rot, _ => True
  | _, _ => False
  end.

(** The two corrections of [current_pose_to_points]: x and y swapped,
    x sign-flipped. *)
Definition swap_xy (l : Carla.Location) : Carla.Location :=
  Carla.mkLocation (Carla.y l) (Carla.x l) (Carla.z l).

Definition flip_x (l : Carla.Location) : Carla.Location :=
  Carla.mkLocation (- Carla.x l)%float (Carla.y l) (Carla.z l).

(** The claim about the points behind the camera, for a projection that
    returns: the image of a bone that lies behind the camera plane is
    flagged, the way [cameratransform] flags it, as NaN. *)
Definition flags_backpoints `{CameraLibrary} (self : PoseProjection) : Prop :=
  ∀ i b,
    relativeBones self !! i = Some b →
    behind_camera (camera self) (Carla.x b, Carla.y b, Carla.z b) = true →
    current_pose_to_points self !! i = Some (nan, nan).

(** ** A small instance

    One adult pedestrian with a single bone, a pose whose [forward] adds
    the first scalar of the change to the relative rotation and reports
    it in every coordinate, a camera that returns the locations it is
    given, and a denormaliser that returns the points it is given.  The
    statements below are evaluated on it. *)

Definition constant_tensor (s : list nat) (v : float) : Tensor :=
  mkTensor s (replicate (numel s) v).

Definition first_scalar (t : Tensor) : float := default 0%float (head (data t)).

Definition sample_collaborators : Collaborators := {|
  uninit := λ _, 0%float;
  tensors := λ _, (mkTensor [1; 3] [0; 1; 0]%float,
                   mkTensor [1; 3; 3] [1; 0; 0; 0; 1; 0; 0; 0; 1]%float);
  P3dPose_forward := λ _ c _ rot,
    match shape c with
    | n :: b :: _ =>
        (constant_tensor [n; b; 3] (first_scalar c + first_scalar rot)%float,
         constant_tensor [n; b; 3; 3] (first_scalar rot),
         mkTensor (shape rot) ((λ v, v + first_scalar c)%float <$> data rot))
    | _ => (c, c, rot)
    end;
  P3dPose_relative_to_absolute := λ _ _ c,
    match shape c with
    | n :: b :: _ =>
        (constant_tensor [n; b; 3] (first_scalar c),
         constant_tensor [n; b; 3; 3] (first_scalar c))
    | _ => (c, c)
    end;
  P3dPoseProjection_forward := λ _ a _ _, a;
  calculate_world_from_changes := λ _ _ _ _ _, Raise (RuntimeError "not used");
  denormalized_points := λ x _ _, x;
  projection_transform := λ t, t
|}.

Definition sample_batch : Batch :=
  mkBatch (mkTensor [1; 2; 1; 3; 3] (replicate 18 0%float)) "cpu"
    (<["gender" := ["female"]]> (<["age" := ["adult"]]> ∅)).

(** The module after [on_batch_start] on [sample_batch]. *)
Definition sample_module (movements : MovementsModelOutputType.t)
    (trajectory : TrajectoryModelOutputType.t) : ProjectionModule :=
  (on_batch_start (__init__ movements trajectory) sample_batch 0).1.

(** Two frames of rotation changes for one clip and one bone, and a clip
    of no frame. *)
Definition sample_changes : Tensor :=
  mkTensor [1; 2; 1; 3; 3]
    [1; 2; 3; 4; 5; 6; 7; 8; 9; 10; 20; 30; 40; 50; 60; 70; 80; 90]%float.

Definition empty_clip : Tensor := mkTensor [1; 0; 1; 3; 3] [].

(** A generator whose further processing changes nothing. *)
Definition sample_generator_collaborators : GeneratorCollaborators := {|
  euler_angles_to_matrix := λ t, constant_tensor (shape t ++ [3]) 0%float;
  process_projection_2d := λ t, ret (t, ∅)
|}.

Definition sample_dataset : Carla2D3DIterableDataset :=
  mkCarla2D3DIterableDataset 1 1
    (__init__ MovementsModelOutputType.pose_changes TrajectoryModelOutputType.changes).

Definition sample_draws : Draws :=
  mkDraws (zeros [1; 1; 2; 3]) (zeros [1; 1; 3]) ["adult"] ["female"].

(** A camera library that moves a location by the translation of the
    transform, takes the points of negative y for the ones behind the
    camera, and drops y for the image; a pedestrian with two bones, one
    on each side. *)
Definition sample_camera_library : CameraLibrary := {|
  Transform_transform := λ t l,
    Carla.mkLocation (Carla.x l + Carla.x (Carla.location t))%float
                     (Carla.y l + Carla.y (Carla.location t))%float
                     (Carla.z l + Carla.z (Carla.location t))%float;
  behind_camera := λ _ p, (p.1.2 <? 0)%float;
  image_point := λ _ p, (p.1.1, p.2)
|}.

Definition sample_pose_projection : PoseProjection :=
  mkPoseProjection
    (mkPedestrianView
       (Carla.mkTransform (Carla.mkLocation 1 2 3) (Carla.mkRotation 10 20 30))
       [("crl_root", Carla.mkTransform (Carla.mkLocation 0 0 0) (Carla.mkRotation 0 0 0));
        ("crl_hips__C",
         Carla.mkTransform (Carla.mkLocation 0.5 (-4) 1) (Carla.mkRotation 0 0 0))])
    (mkCamera 0 3 1.5 180 90)
    (800, 600).

(** A mixed dataset of one item without metadata, whose template asks
    for a gender, a string. *)
Definition sample_mixed (d : Numpy.dtype) : MixedDataset :=
  mkMixedDataset [mkItem (zeros [1; 2; 3]) ∅ ∅] [] (Some [("gender", d)]).

Definition keep_value (v : MetaValue) (d : Numpy.dtype) : Result MetaValue := Ok v.


(** ** Further contracts and readings *)

Section FurtherContracts.
Context `{Collaborators}.

(** The camera returns an image of the shape of the locations it is
    given (the third coordinate of a point stays, as a depth). *)
Definition projection_contract : Prop :=
  ∀ pp a w r s, is_tensor s a → is_tensor s (P3dPoseProjection_forward pp a w r).

End FurtherContracts.

(** A mixed dataset whose template asks for two targets of floats; its
    one item has the first of them, in another shape than the template
    says, and a target the template does not list. *)
Definition sample_targets_item : Item :=
  mkItem (zeros [1; 2; 3])
    (<["frame" := mkTensor [1] [7]%float]>
       (<["pose_changes" := mkTensor [3] [1; 2; 3]%float]> ∅))
    ∅.

Definition sample_targets_dataset : MixedDataset :=
  mkMixedDataset [sample_targets_item]
    [("pose_changes", (Numpy.float64, [1; 3; 3]));
     ("world_loc_changes", (Numpy.float64, [2]))]
    None.

(** ** [PoseProjection.draw_projection_points]

    The table of colours, (R, G, B, A) by name of the bone. *)
Definition POSE_COLORS : gmap string (list Z) :=
  list_to_map
    [
     ("crl_root", [128; 128; 128; 128]);
     ("crl_hips__C", [255; 0; 0; 192]);
     ("hips__C", [255; 0; 0; 192]);
     ("Pelvis", [255; 0; 0; 192]);
     ("crl_spine__C", [255; 0; 0; 128]);
     ("Spine1", [255; 0; 0; 128]);
     ("Spine2", [255; 0; 0; 128]);
     ("crl_spine01__C", [255; 0; 0; 128]);
     ("Spine3", [255; 0; 0; 128]);
     ("crl_shoulder__L", [170; 255; 0; 128]);
     ("L_Collar", [170; 255; 0; 128]);
     ("crl_arm__L", [170; 255; 0; 255]);
     ("arm__L", [170; 255; 0; 255]);
     ("L_Shoulder", [170; 255; 0; 255]);
     ("crl_foreArm__L", [85; 255; 0; 255]);
     ("foreArm__L", [85; 255; 0; 255]);
     ("L_Elbow", [85; 255; 0; 255]);
     ("crl_hand__L", [0; 255; 0; 255]);
     ("hand__L", [0; 255; 0; 255]);
     ("L_Wrist", [0; 255; 0; 255]);
     ("L_Hand", [0; 255; 0; 255]);
     ("crl_neck__C", [255; 0; 0; 192]);
     ("neck__C", [255; 0; 0; 192]);
     ("Neck", [255; 0; 0; 192]);
     ("crl_Head__C", [255; 0; 85; 255]);
     ("head__C", [255; 0; 85; 255]);
     ("Head", [255; 0; 85; 255]);
     ("crl_shoulder__R", [255; 85; 0; 128]);
     ("R_Collar", [255; 85; 0; 128]);
     ("crl_arm__R", [255; 85; 0; 255]);
     ("arm__R", [255; 85; 0; 255]);
     ("R_Shoulder", [255; 85; 0; 255]);
     ("crl_foreArm__R", [255; 170; 0; 255]);
     ("foreArm__R", [255; 170; 0; 255]);
     ("R_Elbow", [255; 170; 0; 255]);
     ("crl_hand__R", [255; 255; 0; 255]);
     ("hand__R", [255; 255; 0; 255]);
     ("R_Wrist", [255; 255; 0; 255]);
     ("R_Hand", [255; 255; 0; 128]);
     ("crl_eye__L", [170; 0; 255; 255]);
     ("eye__L", [170; 0; 255; 255]);
     ("L_Eye", [170; 0; 255; 255]);
     ("crl_eye__R", [255; 0; 170; 255]);
     ("eye__R", [255; 0; 170; 255]);
     ("R_Eye", [255; 0; 170; 255]);
     ("ear__L", [170; 0; 255; 128]);
     ("ear__R", [255; 0; 170; 128]);
     ("crl_thigh__R", [0; 255; 85; 255]);
     ("thigh__R", [0; 255; 85; 255]);
     ("R_Hip", [0; 255; 85; 255]);
     ("crl_leg__R", [0; 255; 170; 255]);
     ("leg__R", [0; 255; 170; 255]);
     ("R_Knee", [0; 255; 170; 255]);
     ("crl_foot__R", [0; 255; 255; 255]);
     ("foot__R", [0; 255; 255; 255]);
     ("R_Ankle", [0; 255; 255; 255]);
     ("crl_toe__R", [0; 255; 255; 255]);
     ("toe__R", [0; 255; 255; 255]);
     ("R_Foot", [0; 255; 255; 255]);
     ("crl_toeEnd__R", [0; 255; 255; 255]);
     ("toeEnd__R", [0; 255; 255; 255]);
     ("heel__R", [0; 255; 255; 128]);
     ("crl_thigh__L", [0; 170; 255; 255]);
     ("thigh__L", [0; 170; 255; 255]);
     ("L_Hip", [0; 170; 255; 255]);
     ("crl_leg__L", [0; 85; 255; 255]);
     ("leg__L", [0; 85; 255; 255]);
     ("L_Knee", [0; 85; 255; 255]);
     ("crl_foot__L", [0; 0; 255; 255]);
     ("foot__L", [0; 0; 255; 255]);
     ("L_Ankle", [0; 0; 255; 255]);
     ("crl_toe__L", [0; 0; 255; 255]);
     ("toe__L", [0; 0; 255; 255]);
     ("L_Foot", [0; 0; 255; 255]);
     ("crl_toeEnd__L", [0; 0; 255; 255]);
     ("toeEnd__L", [0; 0; 255; 255]);
     ("heel__L", [0; 0; 255; 128])
    ]%Z.

(** What [ImageDraw] is asked to draw: the bounding box and the fill. *)
Inductive Shape :=
| Rectangle (box : (Z * Z) * (Z * Z)) (fill : list Z)
| Ellipse (box : (Z * Z) * (Z * Z)) (fill : list Z).

(** [[tuple(point - 2), tuple(point + 2)]] *)
Definition around (point : Z * Z) : (Z * Z) * (Z * Z) :=
  ((point.1 - 2, point.2 - 2), (point.1 + 2, point.2 + 2))%Z.

Section Drawing.
(** [Image.fromarray(frame, mode)] of PIL, by the shape of the frame and
    whether the mode has an alpha channel. *)
Variable Image_fromarray : list nat → bool → Result unit.

(** The points are the rows of a B x 2 array of integers.  The result
    is the mode of the image ([true] for RGBA) and the shapes drawn on
    the image of the frame, in the order of drawing. *)
Definition draw_projection_points (frame_shape : list nat) (rounded_points : list (Z * Z))
    (pose_keys : list string) : M (bool * list Shape) :=
  end_ ← match last frame_shape with
         | Some e => ret e
         | None => raise IndexError
         end;
  let has_alpha := bool_decide (end_ = 4) in
  _ ← lift (Image_fromarray frame_shape has_alpha);
  color_values ← comprehension pose_keys (dict_get POSE_COLORS);
  root ← list_get rounded_points 0;
  root_color ← list_get color_values 0;
  shapes ←
    for_each (zip (seq 0 (length (tail rounded_points))) (tail rounded_points))
      (λ '(idx, point) shapes,
         color ← list_get color_values (idx + 1);
         ret (shapes ++ [Ellipse (around point) (take end_ color)]))
      [Rectangle (around root) (take end_ root_color)];
  ret (has_alpha, shapes).

End Drawing.
(** * Properties *)

(** ** Blocks of a row-major storage *)

Section Rows.
Context {A : Type}.
Implicit Types (l : list A) (ls : list (list A)).

Lemma length_rows n k l : length (rows n k l) = n.
Proof. revert l; induction n as [|n IH]; intros l; simpl; [done|]. by rewrite IH. Qed.

Lemma rows_Forall_length n k l :
  length l = n * k → Forall (λ r, length r = k) (rows n k l).
Proof.
  revert l; induction n as [|n IH]; intros l Hl; simpl; [constructor|].
  constructor.
  - rewrite length_take. lia.
  - apply IH. rewrite length_drop. lia.
Qed.

Lemma concat_rows n k l : length l = n * k → concat (rows n k l) = l.
Proof.
  revert l; induction n as [|n IH]; intros l Hl; simpl.
  - by destruct l.
  - rewrite IH; [apply take_drop|]. rewrite length_drop. lia.
Qed.

Lemma rows_concat k ls :
  Forall (λ r, length r = k) ls → rows (length ls) k (concat ls) = ls.
Proof.
  induction 1 as [|r ls Hr _ IH]; simpl; [done|].
  rewrite take_app_length', drop_app_length' by done. by rewrite IH.
Qed.

Lemma length_concat_uniform k ls :
  Forall (λ r, length r = k) ls → length (concat ls) = length ls * k.
Proof.
  induction 1 as [|r ls Hr _ IH]; simpl; [done|].
  rewrite length_app, IH, Hr. lia.
Qed.

End Rows.

(** ** Slices along the clip dimension *)

Lemma empty_is_tensor u s : is_tensor s (empty u s).
Proof. split; [done|]. simpl. by rewrite length_fmap, length_seq. Qed.

Section Blocks.
Context {A : Type}.
Implicit Types (b vb : list A).

(** One batch element: its [l] frames of [p] scalars each. *)
Lemma put_block_length l p i b vb :
  length b = l * p → length vb = p →
  length (concat (<[i := vb]> (rows l p b))) = l * p.
Proof.
  intros Hb Hvb. rewrite (length_concat_uniform p).
  - by rewrite length_insert, length_rows.
  - apply Forall_insert; [by apply rows_Forall_length|done].
Qed.

Lemma rows_put_block l p i b vb :
  length b = l * p → length vb = p →
  rows l p (concat (<[i := vb]> (rows l p b))) = <[i := vb]> (rows l p b).
Proof.
  intros Hb Hvb.
  rewrite <-(length_rows l p b) at 1.
  rewrite <-(length_insert (rows l p b) i vb).
  apply rows_concat, Forall_insert; [by apply rows_Forall_length|done].
Qed.

Lemma get_put_block l p i b vb :
  length b = l * p → length vb = p → i < l →
  default [] (rows l p (concat (<[i := vb]> (rows l p b))) !! i) = vb.
Proof.
  intros Hb Hvb Hi. rewrite rows_put_block by done.
  by rewrite list_lookup_insert_eq by (by rewrite length_rows).
Qed.

Lemma get_put_block_ne l p i j b vb :
  length b = l * p → length vb = p → i ≠ j →
  default [] (rows l p (concat (<[i := vb]> (rows l p b))) !! j)
  = default [] (rows l p b !! j).
Proof.
  intros Hb Hvb Hij. rewrite rows_put_block by done.
  by rewrite list_lookup_insert_ne.
Qed.

Lemma put_blocks_Forall l p i (bs vs : list (list A)) :
  Forall (λ b, length b = l * p) bs → Forall (λ vb, length vb = p) vs →
  Forall (λ b, length b = l * p)
    (zip_with (λ b vb, concat (<[i := vb]> (rows l p b))) bs vs).
Proof.
  intros Hbs; revert vs; induction Hbs as [|b bs Hb _ IH]; intros vs Hvs; [constructor|].
  destruct Hvs as [|vb vs Hvb Hvs]; simpl; [constructor|].
  constructor; [by apply put_block_length|by apply IH].
Qed.

Lemma get_put_blocks l p i (bs vs : list (list A)) :
  Forall (λ b, length b = l * p) bs → Forall (λ vb, length vb = p) vs →
  length bs = length vs → i < l →
  (λ b, default [] (rows l p b !! i))
    <$> zip_with (λ b vb, concat (<[i := vb]> (rows l p b))) bs vs = vs.
Proof.
  intros Hbs; revert vs; induction Hbs as [|b bs Hb _ IH]; intros vs Hvs Hlen Hi.
  - by destruct vs.
  - destruct Hvs as [|vb vs Hvb Hvs]; [done|]. simpl in *.
    rewrite get_put_block by done. f_equal. apply IH; [done|lia|done].
Qed.

Lemma get_put_blocks_ne l p i j (bs vs : list (list A)) :
  Forall (λ b, length b = l * p) bs → Forall (λ vb, length vb = p) vs →
  length bs = length vs → i ≠ j →
  (λ b, default [] (rows l p b !! j))
    <$> zip_with (λ b vb, concat (<[i := vb]> (rows l p b))) bs vs
  = (λ b, default [] (rows l p b !! j)) <$> bs.
Proof.
  intros Hbs; revert vs; induction Hbs as [|b bs Hb _ IH]; intros vs Hvs Hlen Hij.
  - by destruct vs.
  - destruct Hvs as [|vb vs Hvb Hvs]; [done|]. simpl in *.
    rewrite get_put_block_ne by done. f_equal. apply IH; [done|lia|done].
Qed.

End Blocks.

Lemma assign1_Ok n l rest t i v :
  shape t = n :: l :: rest → shape v = n :: rest → i < l →
  ∃ t', assign1 t i v = Ok t'.
Proof.
  intros Hs Hv Hi. unfold assign1. rewrite Hs.
  rewrite decide_True by done. rewrite decide_True by done. eauto.
Qed.

Lemma assign1_is_tensor n l rest t i v t' :
  is_tensor (n :: l :: rest) t → is_tensor (n :: rest) v →
  assign1 t i v = Ok t' → is_tensor (n :: l :: rest) t'.
Proof.
  intros [Hs Hd] [Hvs Hvd]. unfold assign1. rewrite Hs.
  destruct (decide (i < l)) as [Hi|]; [|done].
  destruct (decide _); [|done].
  intros [= <-]. split; [done|]. simpl in *.
  rewrite (length_concat_uniform (l * numel rest)).
  - rewrite length_zip_with, !length_rows. lia.
  - apply put_blocks_Forall; apply rows_Forall_length; lia.
Qed.

Lemma select1_assign1 n l rest t i v t' :
  is_tensor (n :: l :: rest) t → is_tensor (n :: rest) v →
  assign1 t i v = Ok t' → select1 t' i = Ok v.
Proof.
  intros [Hs Hd] [Hvs Hvd]. unfold assign1. rewrite Hs.
  destruct (decide (i < l)) as [Hi|]; [|done].
  destruct (decide _); [|done].
  intros [= <-]. unfold select1; simpl.
  rewrite decide_True by done. f_equal.
  destruct v as [sv dv]; simpl in *; subst sv. f_equal.
  set (bs := rows n (l * numel rest) (data t)).
  set (vs := rows n (numel rest) dv).
  assert (Hbs : Forall (λ b, length b = l * numel rest) bs)
    by (apply rows_Forall_length; lia).
  assert (Hvs : Forall (λ vb, length vb = numel rest) vs)
    by (apply rows_Forall_length; lia).
  assert (Hlen : length bs = length vs) by (unfold bs, vs; by rewrite !length_rows).
  replace n with (length (zip_with (λ b vb, concat (<[i := vb]> (rows l (numel rest) b))) bs vs)) at 1
    by (rewrite length_zip_with, <-Hlen; unfold bs; rewrite length_rows; lia).
  rewrite rows_concat by (by apply put_blocks_Forall).
  rewrite get_put_blocks by done.
  apply concat_rows. lia.
Qed.

Lemma select1_assign1_ne n l rest t i j v t' :
  is_tensor (n :: l :: rest) t → is_tensor (n :: rest) v → i ≠ j →
  assign1 t i v = Ok t' → select1 t' j = select1 t j.
Proof.
  intros [Hs Hd] [Hvs Hvd] Hij. unfold assign1. rewrite Hs.
  destruct (decide (i < l)) as [Hi|]; [|done].
  destruct (decide _); [|done].
  intros [= <-]. unfold select1; simpl. rewrite Hs.
  destruct (decide (j < l)); [|done]. do 3 f_equal.
  set (bs := rows n (l * numel rest) (data t)).
  set (vs := rows n (numel rest) (data v)).
  assert (Hbs : Forall (λ b, length b = l * numel rest) bs)
    by (apply rows_Forall_length; simpl in *; lia).
  assert (Hvs' : Forall (λ vb, length vb = numel rest) vs)
    by (apply rows_Forall_length; simpl in *; lia).
  assert (Hlen : length bs = length vs) by (unfold bs, vs; by rewrite !length_rows).
  replace n with (length (zip_with (λ b vb, concat (<[i := vb]> (rows l (numel rest) b))) bs vs)) at 1
    by (rewrite length_zip_with, <-Hlen; unfold bs; rewrite length_rows; lia).
  rewrite rows_concat by (by apply put_blocks_Forall).
  by apply get_put_blocks_ne.
Qed.

Lemma select1_Ok n l rest t i :
  shape t = n :: l :: rest → i < l → ∃ s, select1 t i = Ok s ∧ shape s = n :: rest.
Proof.
  intros Hs Hi. unfold select1. rewrite Hs, decide_True by done. eauto.
Qed.

(** ** Running computations *)

Lemma bind_ret {A B} (a : A) (f : A → M B) : ret a ≫= f = f a.
Proof. unfold mbind, M_bind, bind, ret. by destruct (f a). Qed.

Lemma bind_lift_Ok {A B} (a : A) (f : A → M B) : lift (Ok a) ≫= f = f a.
Proof. apply bind_ret. Qed.

Lemma bind_call {A B} ev (a : A) (f : A → M B) :
  call ev a ≫= f = ((f a).1, ev :: (f a).2).
Proof. unfold mbind, M_bind, bind, call. by destruct (f a). Qed.

Lemma bind_Ok {A B} (a : A) tr (f : A → M B) :
  (Ok a, tr) ≫= f = ((f a).1, tr ++ (f a).2).
Proof. unfold mbind, M_bind, bind. by destruct (f a). Qed.

Lemma bind_inv_Ok {A B} (m : M A) (f : A → M B) b tr :
  m ≫= f = (Ok b, tr) →
  ∃ a tr1 tr2, m = (Ok a, tr1) ∧ f a = (Ok b, tr2) ∧ tr = tr1 ++ tr2.
Proof.
  destruct m as [[a|e] tr1]; [|done].
  rewrite bind_Ok. destruct (f a) as [r tr2] eqn:Hf; simpl.
  intros [= -> <-]. eauto 6.
Qed.

Lemma select1_unbind1 t i c : unbind1 t !! i = Some c ↔ select1 t i = Ok c.
Proof.
  unfold unbind1, select1. destruct (shape t) as [|n [|l rest]]; [done..|].
  rewrite list_lookup_fmap. destruct (decide (i < l)) as [Hi|Hi].
  - rewrite lookup_seq_lt by done. simpl. split; by intros [= <-].
  - rewrite lookup_seq_ge by lia. done.
Qed.

Lemma length_unbind1 t n l rest : shape t = n :: l :: rest → length (unbind1 t) = l.
Proof. intros Hs. unfold unbind1. rewrite Hs. by rewrite length_fmap, length_seq. Qed.

Lemma unbind1_shape t n l rest i c :
  shape t = n :: l :: rest → unbind1 t !! i = Some c → shape c = n :: rest.
Proof.
  intros Hs. unfold unbind1. rewrite Hs, list_lookup_fmap.
  destruct (seq 0 l !! i); [|done]. by intros [= <-].
Qed.

(** ** The recurrence of pose-changes mode *)

Section PoseChanges.
Context `{Collaborators}.

Local Abbreviation pose_changes_body x pose prev_relative_loc :=
  (λ i '(absolute_loc, absolute_rot, prev_relative_rot),
     changes ← lift (select1 x i);
     '(loc, rot, new_relative_rot) ←
       call (PoseForward pose changes prev_relative_loc prev_relative_rot)
            (P3dPose_forward pose changes prev_relative_loc prev_relative_rot);
     absolute_loc ← lift (assign1 absolute_loc i loc);
     absolute_rot ← lift (assign1 absolute_rot i rot);
     ret (absolute_loc, absolute_rot, new_relative_rot)).

Lemma pose_after_cons pose loc r c cs :
  pose_after pose loc r (c :: cs)
  = pose_after pose loc (P3dPose_forward pose c loc r).2 cs.
Proof. done. Qed.

Lemma pose_changes_loop x pose loc n l b rest :
  forward_contract →
  shape x = n :: l :: b :: rest →
  ∀ cs k al ar r,
    (∀ d c, cs !! d = Some c → select1 x (k + d) = Ok c) →
    k + length cs ≤ l →
    is_tensor [n; l; b; 3] al → is_tensor [n; l; b; 3; 3] ar →
    ∃ al' ar',
      for_each (seq k (length cs)) (pose_changes_body x pose loc) (al, ar, r)
      = (Ok (al', ar', pose_after pose loc r cs),
         imap (λ d c, PoseForward pose c loc (pose_after pose loc r (take d cs))) cs) ∧
      is_tensor [n; l; b; 3] al' ∧ is_tensor [n; l; b; 3; 3] ar' ∧
      (∀ j, j < k ∨ k + length cs ≤ j →
            select1 al' j = select1 al j ∧ select1 ar' j = select1 ar j) ∧
      (∀ d c, cs !! d = Some c →
            select1 al' (k + d)
            = Ok (P3dPose_forward pose c loc (pose_after pose loc r (take d cs))).1.1 ∧
            select1 ar' (k + d)
            = Ok (P3dPose_forward pose c loc (pose_after pose loc r (take d cs))).1.2).
Proof.
  intros Hfw Hx. induction cs as [|c cs IH]; intros k al ar r Hcs Hk Hal Har.
  - exists al, ar. simpl. split; [done|]. split; [done|]. split; [done|]. split; done.
  - simpl in Hk.
    pose proof (Hcs 0 c eq_refl) as Hc. rewrite Nat.add_0_r in Hc.
    assert (Hshape : shape c = n :: b :: rest).
    { apply (select1_unbind1 x k c) in Hc. by eapply unbind1_shape. }
    destruct (Hfw pose c loc r n b rest Hshape) as [Hloc Hrot].
    destruct (P3dPose_forward pose c loc r) as [[oloc orot] r1] eqn:Hout.
    simpl in Hloc, Hrot.
    destruct (assign1_Ok n l [b; 3] al k oloc) as [al1 Hal1];
      [apply Hal|apply Hloc|lia|].
    destruct (assign1_Ok n l [b; 3; 3] ar k orot) as [ar1 Har1];
      [apply Har|apply Hrot|lia|].
    destruct (IH (S k) al1 ar1 r1) as (al' & ar' & Hrun & Hal' & Har' & Hout' & Hin').
    { intros d c' Hd. replace (S k + d) with (k + S d) by lia. by apply Hcs. }
    { lia. }
    { by eapply assign1_is_tensor. }
    { by eapply assign1_is_tensor. }
    exists al', ar'. split; [|split; [done|split; [done|split]]].
    + change (for_each (seq k (length (c :: cs))) ?f ?s)
        with (f k s ≫= for_each (seq (S k) (length cs)) f).
      set (F := for_each (seq (S k) (length cs)) (pose_changes_body x pose loc)) in *.
      cbv beta iota. rewrite Hc, bind_lift_Ok, bind_call, Hout.
      cbv beta iota. rewrite Hal1, bind_lift_Ok, Har1, bind_lift_Ok.
      unfold ret at 1 2. cbn [fst snd]. rewrite bind_Ok, Hrun. cbn [fst snd].
      f_equal.
      * rewrite pose_after_cons. by rewrite Hout.
      * simpl. f_equal. apply imap_ext. intros d c' _. unfold compose.
        rewrite firstn_cons, pose_after_cons. by rewrite Hout.
    + intros j Hj. simpl in Hj. destruct (Hout' j) as [-> ->]; [lia|].
      split.
      * eapply select1_assign1_ne; [apply Hal|apply Hloc| |done]. lia.
      * eapply select1_assign1_ne; [apply Har|apply Hrot| |done]. lia.
    + intros [|d] c' Hd; simpl in Hd.
      * injection Hd as <-. rewrite Nat.add_0_r. simpl. unfold pose_after; simpl. rewrite Hout. simpl.
        destruct (Hout' k) as [-> ->]; [lia|]. split.
        -- eapply select1_assign1; [apply Hal|apply Hloc|done].
        -- eapply select1_assign1; [apply Har|apply Hrot|done].
      * replace (k + S d) with (S k + d) by lia.
        rewrite firstn_cons, pose_after_cons, Hout. by apply Hin'.
Qed.

Lemma first_pose_cons self pose peds :
  __pedestrians self = Some (pose :: peds) → first_pose self = ret pose.
Proof. intros Hp. unfold first_pose. by rewrite Hp. Qed.

Lemma pose_changes_closed_form self x n l b rest pose peds ref_loc ref_rot :
  forward_contract →
  shape x = n :: l :: b :: rest →
  __pedestrians self = Some (pose :: peds) →
  get_reference_tensors self = (Ok (ref_loc, ref_rot), []) →
  ∃ loc rot,
    _calculate_abs_from_pose_changes self (TensorInput x)
    = (Ok (loc, Some rot),
       imap (λ t c, PoseForward pose c ref_loc
                      (pose_after pose ref_loc ref_rot (take t (unbind1 x))))
            (unbind1 x)) ∧
    ∀ t c, unbind1 x !! t = Some c →
      select1 loc t
      = Ok (P3dPose_forward pose c ref_loc
              (pose_after pose ref_loc ref_rot (take t (unbind1 x)))).1.1 ∧
      select1 rot t
      = Ok (P3dPose_forward pose c ref_loc
              (pose_after pose ref_loc ref_rot (take t (unbind1 x)))).1.2.
Proof.
  intros Hfw Hx Hpeds Href.
  pose proof (length_unbind1 x n l (b :: rest) Hx) as Hlen.
  destruct (pose_changes_loop x pose ref_loc n l b rest Hfw Hx (unbind1 x) 0
              (empty uninit [n; l; b; 3]) (empty uninit [n; l; b; 3; 3]) ref_rot)
    as (loc & rot & Hrun & _ & _ & _ & Hframes).
  { intros d c Hd. by apply select1_unbind1. }
  { lia. }
  { apply empty_is_tensor. }
  { apply empty_is_tensor. }
  exists loc, rot. split; [|exact Hframes].
  unfold _calculate_abs_from_pose_changes.
  change (input_tensor (TensorInput x)) with (ret x). rewrite bind_ret.
  rewrite Hx. change (unpack3 (n :: l :: b :: rest)) with (ret (n, l, b)).
  rewrite bind_ret. cbv beta iota.
  rewrite Href, bind_Ok. cbv beta iota.
  rewrite (first_pose_cons self pose peds Hpeds), bind_ret.
  rewrite Hlen in Hrun. rewrite Hrun, bind_Ok. cbn [fst snd ret app].
  by rewrite app_nil_r.
Qed.

(** C1. In pose-changes mode the absolute pose of a batch of rotation
    changes is computed by one call of the pose's [forward] per frame, in
    the order of the frames: the trace of the calls is the list of the
    frames, each with the reference relative locations and the relative
    rotation the previous call returned (the reference relative rotation
    for frame 0).  Frame [t] of the absolute locations and rotations is
    what the call for frame [t] returned, so two inputs with the same
    frames [0..t] have the same frame [t] of the result.  The clip length
    need not be positive: for no frame, no call is made. *)
Theorem C1_pose_changes_recurrence self x n l b rest pose peds ref_loc ref_rot :
  movements_output_type self = MovementsModelOutputType.pose_changes →
  forward_contract →
  shape x = n :: l :: b :: rest →
  __pedestrians self = Some (pose :: peds) →
  get_reference_tensors self = (Ok (ref_loc, ref_rot), []) →
  ∃ loc rot,
    __calculate_abs self (TensorInput x)
    = (Ok (loc, Some rot),
       imap (λ t c, PoseForward pose c ref_loc
                      (pose_after pose ref_loc ref_rot (take t (unbind1 x))))
            (unbind1 x)) ∧
    length (unbind1 x) = l ∧
    (∀ t c, unbind1 x !! t = Some c →
       select1 x t = Ok c ∧
       select1 loc t
       = Ok (P3dPose_forward pose c ref_loc
               (pose_after pose ref_loc ref_rot (take t (unbind1 x)))).1.1 ∧
       select1 rot t
       = Ok (P3dPose_forward pose c ref_loc
               (pose_after pose ref_loc ref_rot (take t (unbind1 x)))).1.2) ∧
    (∀ y loc_y rot_y tr_y t,
       __calculate_abs self (TensorInput y) = (Ok (loc_y, Some rot_y), tr_y) →
       t < l →
       take (S t) (unbind1 y) = take (S t) (unbind1 x) →
       select1 loc_y t = select1 loc t ∧ select1 rot_y t = select1 rot t).
Proof.
  intros Hmode Hfw Hx Hpeds Href.
  destruct (pose_changes_closed_form self x n l b rest pose peds ref_loc ref_rot
              Hfw Hx Hpeds Href) as (loc & rot & Hrun & Hframes).
  pose proof (length_unbind1 x n l (b :: rest) Hx) as Hlen.
  exists loc, rot. unfold __calculate_abs. rewrite Hmode.
  split; [done|]. split; [done|]. split.
  - intros t c Ht. split; [by apply select1_unbind1|by apply Hframes].
  - intros y loc_y rot_y tr_y t Hy Ht Hpre.
    assert (∃ n' l' b' rest', shape y = n' :: l' :: b' :: rest') as (n' & l' & b' & rest' & Hsy).
    { unfold _calculate_abs_from_pose_changes in Hy.
      change (input_tensor (TensorInput y)) with (ret y) in Hy. rewrite bind_ret in Hy.
      destruct (shape y) as [|n' [|l' [|b' rest']]]; [done..|]. eauto. }
    destruct (pose_changes_closed_form self y n' l' b' rest' pose peds ref_loc ref_rot
                Hfw Hsy Hpeds Href) as (loc' & rot' & Hrun' & Hframes').
    rewrite Hrun' in Hy. injection Hy as <- <- _.
    destruct (lookup_lt_is_Some_2 (unbind1 x) t) as [c Hc]; [lia|].
    assert (Hcy : unbind1 y !! t = Some c).
    { rewrite <-(lookup_take_lt (unbind1 y) (S t) t), Hpre by lia.
      by rewrite lookup_take_lt by lia. }
    assert (Htake : take t (unbind1 y) = take t (unbind1 x)).
    { replace t with (t `min` S t) by lia.
      by rewrite <-!take_take, Hpre. }
    destruct (Hframes' t c Hcy) as [-> ->].
    destruct (Hframes t c Hc) as [-> ->].
    by rewrite Htake.
Qed.

End PoseChanges.

(** ** Relative-rotation mode: frame by frame, no state *)

Section RelativeRot.
Context `{Collaborators}.

Local Abbreviation relative_rot_body x pose prev_relative_loc :=
  (λ i '(absolute_loc, absolute_rot),
     rotations ← lift (select1 x i);
     '(loc, rot) ←
       call (PoseRelativeToAbsolute pose prev_relative_loc rotations)
            (P3dPose_relative_to_absolute pose prev_relative_loc rotations);
     absolute_loc ← lift (assign1 absolute_loc i loc);
     absolute_rot ← lift (assign1 absolute_rot i rot);
     ret (absolute_loc, absolute_rot)).

Lemma relative_rot_loop x pose ref n l b rest :
  relative_to_absolute_contract →
  shape x = n :: l :: b :: rest →
  ∀ cs k al ar,
    (∀ d c, cs !! d = Some c → select1 x (k + d) = Ok c) →
    k + length cs ≤ l →
    is_tensor [n; l; b; 3] al → is_tensor [n; l; b; 3; 3] ar →
    ∃ al' ar',
      for_each (seq k (length cs)) (relative_rot_body x pose ref) (al, ar)
      = (Ok (al', ar'), PoseRelativeToAbsolute pose ref <$> cs) ∧
      is_tensor [n; l; b; 3] al' ∧ is_tensor [n; l; b; 3; 3] ar' ∧
      (∀ j, j < k ∨ k + length cs ≤ j →
            select1 al' j = select1 al j ∧ select1 ar' j = select1 ar j) ∧
      (∀ d c, cs !! d = Some c →
            select1 al' (k + d) = Ok (P3dPose_relative_to_absolute pose ref c).1 ∧
            select1 ar' (k + d) = Ok (P3dPose_relative_to_absolute pose ref c).2).
Proof.
  intros Hra Hx. induction cs as [|c cs IH]; intros k al ar Hcs Hk Hal Har.
  - exists al, ar. simpl. split; [done|]. split; [done|]. split; [done|]. split; done.
  - simpl in Hk.
    pose proof (Hcs 0 c eq_refl) as Hc. rewrite Nat.add_0_r in Hc.
    assert (Hshape : shape c = n :: b :: rest).
    { apply (select1_unbind1 x k c) in Hc. by eapply unbind1_shape. }
    destruct (Hra pose ref c n b rest Hshape) as [Hloc Hrot].
    destruct (P3dPose_relative_to_absolute pose ref c) as [oloc orot] eqn:Hout.
    simpl in Hloc, Hrot.
    destruct (assign1_Ok n l [b; 3] al k oloc) as [al1 Hal1];
      [apply Hal|apply Hloc|lia|].
    destruct (assign1_Ok n l [b; 3; 3] ar k orot) as [ar1 Har1];
      [apply Har|apply Hrot|lia|].
    destruct (IH (S k) al1 ar1) as (al' & ar' & Hrun & Hal' & Har' & Hout' & Hin').
    { intros d c' Hd. replace (S k + d) with (k + S d) by lia. by apply Hcs. }
    { lia. }
    { by eapply assign1_is_tensor. }
    { by eapply assign1_is_tensor. }
    exists al', ar'. split; [|split; [done|split; [done|split]]].
    + change (for_each (seq k (length (c :: cs))) ?f ?s)
        with (f k s ≫= for_each (seq (S k) (length cs)) f).
      set (F := for_each (seq (S k) (length cs)) (relative_rot_body x pose ref)) in *.
      cbv beta iota. rewrite Hc, bind_lift_Ok, bind_call, Hout.
      cbv beta iota. rewrite Hal1, bind_lift_Ok, Har1, bind_lift_Ok.
      unfold ret at 1 2. cbn [fst snd]. rewrite bind_Ok, Hrun. done.
    + intros j Hj. simpl in Hj. destruct (Hout' j) as [-> ->]; [lia|].
      split.
      * eapply select1_assign1_ne; [apply Hal|apply Hloc| |done]. lia.
      * eapply select1_assign1_ne; [apply Har|apply Hrot| |done]. lia.
    + intros [|d] c' Hd; simpl in Hd.
      * injection Hd as <-. rewrite Nat.add_0_r, Hout. simpl.
        destruct (Hout' k) as [-> ->]; [lia|]. split.
        -- eapply select1_assign1; [apply Hal|apply Hloc|done].
        -- eapply select1_assign1; [apply Har|apply Hrot|done].
      * replace (k + S d) with (S k + d) by lia. by apply Hin'.
Qed.

Lemma relative_rot_closed_form self x n l b rest pose peds ref :
  relative_to_absolute_contract →
  shape x = n :: l :: b :: rest →
  __pedestrians self = Some (pose :: peds) →
  reference_locations self n = (Ok ref, []) →
  ∃ loc rot,
    _calculate_abs_from_relative_rot self (TensorInput x)
    = (Ok (loc, Some rot), PoseRelativeToAbsolute pose ref <$> unbind1 x) ∧
    ∀ i c, select1 x i = Ok c →
      select1 loc i = Ok (P3dPose_relative_to_absolute pose ref c).1 ∧
      select1 rot i = Ok (P3dPose_relative_to_absolute pose ref c).2.
Proof.
  intros Hra Hx Hpeds Href.
  pose proof (length_unbind1 x n l (b :: rest) Hx) as Hlen.
  destruct (relative_rot_loop x pose ref n l b rest Hra Hx (unbind1 x) 0
              (empty uninit [n; l; b; 3]) (empty uninit [n; l; b; 3; 3]))
    as (loc & rot & Hrun & _ & _ & _ & Hframes).
  { intros d c Hd. by apply select1_unbind1. }
  { lia. }
  { apply empty_is_tensor. }
  { apply empty_is_tensor. }
  exists loc, rot. split.
  - unfold _calculate_abs_from_relative_rot.
    change (input_tensor (TensorInput x)) with (ret x). rewrite bind_ret.
    rewrite Hx. change (unpack3 (n :: l :: b :: rest)) with (ret (n, l, b)).
    rewrite bind_ret. cbv beta iota.
    rewrite Href, bind_Ok. cbv beta iota.
    rewrite (first_pose_cons self pose peds Hpeds), bind_ret.
    rewrite Hlen in Hrun. rewrite Hrun, bind_Ok. cbn [fst snd ret app].
    by rewrite app_nil_r.
  - intros i c Hc. apply select1_unbind1 in Hc. by apply (Hframes i c).
Qed.

(** C10. In relative-rotation mode frame [i] of the absolute locations and
    rotations is [relative_to_absolute] of the reference relative
    locations, the same for every frame, and of frame [i] of the input:
    one call per frame, none of which receives anything a previous call
    returned.  Two inputs that agree at frame [i] have the same frame [i]
    of the result, whatever their other frames are. *)
Theorem C10_relative_rot_frames_independent self x n l b rest pose peds ref :
  movements_output_type self = MovementsModelOutputType.relative_rot →
  relative_to_absolute_contract →
  shape x = n :: l :: b :: rest →
  __pedestrians self = Some (pose :: peds) →
  reference_locations self n = (Ok ref, []) →
  ∃ loc rot,
    __calculate_abs self (TensorInput x)
    = (Ok (loc, Some rot), PoseRelativeToAbsolute pose ref <$> unbind1 x) ∧
    length (unbind1 x) = l ∧
    (∀ i c, select1 x i = Ok c →
       select1 loc i = Ok (P3dPose_relative_to_absolute pose ref c).1 ∧
       select1 rot i = Ok (P3dPose_relative_to_absolute pose ref c).2) ∧
    (∀ y loc_y rot_y tr_y i,
       __calculate_abs self (TensorInput y) = (Ok (loc_y, Some rot_y), tr_y) →
       i < l →
       select1 y i = select1 x i →
       select1 loc_y i = select1 loc i ∧ select1 rot_y i = select1 rot i).
Proof.
  intros Hmode Hra Hx Hpeds Href.
  destruct (relative_rot_closed_form self x n l b rest pose peds ref
              Hra Hx Hpeds Href) as (loc & rot & Hrun & Hframes).
  exists loc, rot. unfold __calculate_abs. rewrite Hmode.
  split; [done|]. split; [by eapply length_unbind1|]. split; [done|].
  intros y loc_y rot_y tr_y i Hy Hi Hsel.
  destruct (select1_Ok n l (b :: rest) x i Hx Hi) as (c & Hc & Hcs).
  rewrite Hc in Hsel.
  assert (∃ l' b' rest', shape y = n :: l' :: b' :: rest') as (l' & b' & rest' & Hsy).
  { unfold _calculate_abs_from_relative_rot in Hy.
    change (input_tensor (TensorInput y)) with (ret y) in Hy. rewrite bind_ret in Hy.
    destruct (shape y) as [|n' [|l' [|b' rest']]] eqn:Hsy; [done..|].
    unfold select1 in Hsel. rewrite Hsy in Hsel.
    destruct (decide (i < l')); [|done].
    injection Hsel as Hsel. rewrite <-Hsel in Hcs. simpl in Hcs.
    injection Hcs as -> _ _. eauto. }
  destruct (relative_rot_closed_form self y n l' b' rest' pose peds ref
              Hra Hsy Hpeds Href) as (loc' & rot' & Hrun' & Hframes').
  rewrite Hrun' in Hy. injection Hy as <- <- _.
  destruct (Hframes' i c Hsel) as [-> ->].
  destruct (Hframes i c Hc) as [-> ->]. done.
Qed.

End RelativeRot.

(** ** What a trace can contain *)

Section Traces.
Context (P : Event → Prop).

Lemma Forall_trace_bind {A B} (m : M A) (f : A → M B) :
  Forall P m.2 → (∀ a, Forall P (f a).2) → Forall P (m ≫= f).2.
Proof.
  intros Hm Hf. destruct m as [[a|e] tr]; [|done].
  rewrite bind_Ok. simpl in *. apply Forall_app; auto.
Qed.

Lemma Forall_trace_for_each {X S} (xs : list X) (body : X → S → M S) s :
  (∀ x s', Forall P (body x s').2) → Forall P (for_each xs body s).2.
Proof.
  intros Hb. revert s; induction xs as [|x xs IH]; intros s; [constructor|].
  change (for_each (x :: xs) body s) with (body x s ≫= for_each xs body).
  by apply Forall_trace_bind.
Qed.

Lemma Forall_trace_comprehension {X Y} (xs : list X) (f : X → M Y) :
  (∀ x, Forall P (f x).2) → Forall P (comprehension xs f).2.
Proof.
  intros Hf. induction xs as [|x xs IH]; [constructor|].
  change (comprehension (x :: xs) f)
    with (y ← f x; ys ← comprehension xs f; ret (y :: ys)).
  apply Forall_trace_bind; [done|]. intros y.
  apply Forall_trace_bind; [done|]. intros ys. constructor.
Qed.

Lemma Forall_trace_lift {A} (r : Result A) : Forall P (lift r).2.
Proof. constructor. Qed.

Lemma Forall_trace_call {A} ev (a : A) : P ev → Forall P (call ev a).2.
Proof. intros Hev. by repeat constructor. Qed.

End Traces.

Ltac trace_step :=
  lazymatch goal with
  | |- Forall _ (snd (mbind _ _)) => apply Forall_trace_bind; [|intros ?]
  | |- Forall _ (snd (for_each _ _ _)) => apply Forall_trace_for_each; intros ? ?
  | |- Forall _ (snd (comprehension _ _)) => apply Forall_trace_comprehension; intros ?
  | |- Forall _ (snd (lift _)) => apply Forall_trace_lift
  | |- Forall _ (snd (call _ _)) => apply Forall_trace_call; try exact I; try done
  | |- Forall _ (snd (ret _)) => apply Forall_nil_2
  | |- Forall _ (snd (raise _)) => apply Forall_nil_2
  | |- Forall _ (snd (dict_get _ _)) => unfold dict_get
  | |- Forall _ (snd (list_get _ _)) => unfold list_get
  | |- Forall _ (snd (unpack2 _)) => unfold unpack2
  | |- Forall _ (snd (unpack3 _)) => unfold unpack3
  | |- Forall _ (snd (input_tensor _)) => unfold input_tensor
  | |- Forall _ (snd (input_ndim _)) => unfold input_ndim
  | |- Forall _ (snd (input_item _ _)) => unfold input_item
  | |- Forall _ (snd (match ?x with _ => _ end)) => destruct x
  end.

Ltac trace_solve := repeat trace_step.

Section ProjectPose.
Context `{Collaborators}.

Lemma get_reference_tensors_trace P self : Forall P (get_reference_tensors self).2.
Proof. unfold get_reference_tensors. trace_solve. Qed.

Lemma first_pose_trace P self : Forall P (first_pose self).2.
Proof. unfold first_pose. trace_solve. Qed.

Lemma calculate_abs_trace self x :
  Forall composition_event (__calculate_abs self x).2.
Proof.
  unfold __calculate_abs. destruct (movements_output_type self).
  - unfold _calculate_abs_from_pose_changes. trace_solve.
    + apply get_reference_tensors_trace.
    + apply first_pose_trace.
  - unfold _calculate_abs_from_abs_loc_output. trace_solve.
  - unfold _calculate_abs_from_abs_loc_rot_output, _calculate_abs_from_abs_loc_output.
    trace_solve.
  - unfold _calculate_abs_from_relative_rot, reference_locations. trace_solve.
    + apply get_reference_tensors_trace.
    + apply first_pose_trace.
Qed.

Lemma calculate_world_trace self al wl wr :
  Forall composition_event (__calculate_world self al wl wr).2.
Proof.
  unfold __calculate_world. destruct (trajectory_output_type self).
  - unfold _calculate_world_from_changes. trace_solve.
  - unfold _calculate_world_from_loc_rot. trace_solve.
Qed.

End ProjectPose.

(** ** One camera per batch *)

Section Camera.
Context `{Collaborators}.

Local Abbreviation projection_body self absolute_loc world_loc world_rot :=
  (λ i projections,
     pp ← match __pose_projection self with
          | Some pp => ret pp
          | None => raise AttributeError
          end;
     a ← lift (select1 absolute_loc i);
     wl ← lift (select1 world_loc i);
     wr ← lift (select1 world_rot i);
     p ← call (ProjectionForward pp a wl wr) (P3dPoseProjection_forward pp a wl wr);
     lift (assign1 projections i p)).

Lemma composition_through_camera pp tr :
  Forall composition_event tr → Forall (through_camera pp) tr.
Proof. intros Htr. eapply Forall_impl; [exact Htr|]. by intros []. Qed.

Lemma composition_no_projection tr :
  Forall composition_event tr → projection_calls tr = [] ∧ created_projections tr = [].
Proof.
  induction 1 as [|e tr He _ [IH1 IH2]]; [done|].
  destruct e; try done; split; assumption.
Qed.

Lemma check_pose_inputs_trace self x : (check_pose_inputs self x).2 = [].
Proof.
  unfold check_pose_inputs.
  destruct (movements_output_type self), x; simpl; try done; by destruct (decide _).
Qed.

Lemma projection_loop_trace self al wl wr pp xs proj :
  __pose_projection self = Some pp →
  Forall (through_camera pp) (for_each xs (projection_body self al wl wr) proj).2.
Proof.
  intros Hpp. apply Forall_trace_for_each. intros i p.
  cbv beta. rewrite Hpp, bind_ret. trace_solve.
Qed.

Lemma projection_loop_calls self al wl wr pp :
  __pose_projection self = Some pp →
  ∀ m k proj proj' tr,
    for_each (seq k m) (projection_body self al wl wr) proj = (Ok proj', tr) →
    length (projection_calls tr) = m ∧
    ∀ d, d < m →
      ∃ a w r, select1 al (k + d) = Ok a ∧ select1 wl (k + d) = Ok w ∧
               select1 wr (k + d) = Ok r ∧
               projection_calls tr !! d = Some (pp, a, w, r).
Proof.
  intros Hpp. induction m as [|m IH]; intros k proj proj' tr Hrun.
  - injection Hrun as _ <-. split; [done|]. intros d Hd. lia.
  - change (for_each (seq k (S m)) ?f ?s)
      with (f k s ≫= for_each (seq (S k) m) f) in Hrun.
    apply bind_inv_Ok in Hrun as (proj1 & tr1 & tr2 & Hbody & Hrest & ->).
    apply IH in Hrest as [Hlen Hcalls].
    cbv beta in Hbody. rewrite Hpp, bind_ret in Hbody.
    destruct (select1 al k) as [a|] eqn:Ha; [|done]. rewrite bind_lift_Ok in Hbody.
    destruct (select1 wl k) as [w|] eqn:Hw; [|done]. rewrite bind_lift_Ok in Hbody.
    destruct (select1 wr k) as [r|] eqn:Hr; [|done]. rewrite bind_lift_Ok in Hbody.
    rewrite bind_call in Hbody. simpl in Hbody. injection Hbody as _ <-.
    change (projection_calls ([ProjectionForward pp a w r] ++ tr2))
      with ((pp, a, w, r) :: projection_calls tr2).
    split; [simpl; by rewrite Hlen|].
    intros [|d] Hd.
    + rewrite Nat.add_0_r. exists a, w, r. done.
    + replace (k + S d) with (S k + d) by lia. apply Hcalls. lia.
Qed.

Lemma on_batch_start_camera self batch idx self' tr :
  on_batch_start self batch idx = (self', (Ok tt, tr)) →
  ∃ pp, created_projections tr = [pp] ∧ __pose_projection self' = Some pp.
Proof.
  unfold on_batch_start.
  set (m := _ ≫= _).
  assert (Hm : Forall (λ e, ∃ p, e = NewPedestrian p) m.2).
  { unfold m, new_pedestrian. trace_solve; eauto. }
  destruct m as [[[batch_size peds]|e] tr1]; [|done]. simpl in Hm.
  destruct (peds !! 0) as [p0|]; [|done].
  destruct (initial_world_rotations batch_size) as [wr|]; [|done].
  intros [= <- <-]. eexists. split; [|done].
  unfold created_projections. rewrite omap_app. simpl.
  replace (omap _ tr1) with (@nil P3dPoseProjection); [done|].
  symmetry. clear -Hm. induction Hm as [|e tr [p ->] _ IH]; [done|]. simpl. done.
Qed.

Lemma project_pose_through_camera self pp x wl wr :
  __pose_projection self = Some pp →
  Forall (through_camera pp) (project_pose self x wl wr).2.
Proof.
  intros Hpp. unfold project_pose, project_frames.
  apply Forall_trace_bind; [by rewrite check_pose_inputs_trace|]. intros _.
  apply Forall_trace_bind.
  { apply composition_through_camera, calculate_abs_trace. }
  intros [al ar].
  apply Forall_trace_bind.
  { apply composition_through_camera, calculate_world_trace. }
  intros [wl' wr'].
  apply Forall_trace_bind; [trace_solve|]. intros L.
  apply Forall_trace_bind; [|intros; constructor].
  by apply projection_loop_trace.
Qed.

Lemma project_pose_calls self pp x wl wr proj al ar wloc wrot tr :
  __pose_projection self = Some pp →
  project_pose self x wl wr = (Ok (proj, al, ar, wloc, wrot), tr) →
  ∃ L, shape al !! 1 = Some L ∧ length (projection_calls tr) = L ∧
    ∀ i, i < L →
      ∃ a w r, select1 al i = Ok a ∧ select1 wloc i = Ok w ∧ select1 wrot i = Ok r ∧
               projection_calls tr !! i = Some (pp, a, w, r).
Proof.
  intros Hpp Hrun. unfold project_pose in Hrun.
  apply bind_inv_Ok in Hrun as ([] & tr0 & tr' & Hcheck & Hrun & ->).
  assert (tr0 = []) as -> by (by rewrite <-(check_pose_inputs_trace self x), Hcheck).
  unfold project_frames in Hrun.
  apply bind_inv_Ok in Hrun as ([al' ar'] & tr1 & tr2 & Habs & Hrun & ->).
  apply bind_inv_Ok in Hrun as ([wl' wr'] & tr3 & tr4 & Hworld & Hrun & ->).
  apply bind_inv_Ok in Hrun as (L & tr5 & tr6 & HL & Hrun & ->).
  apply bind_inv_Ok in Hrun as (proj' & tr7 & tr8 & Hloop & Hret & ->).
  injection Hret as <- <- <- <- <- <-.
  unfold list_get in HL. destruct (shape al' !! 1) as [L'|] eqn:HL'; [|done].
  injection HL as -> <-.
  destruct (composition_no_projection tr1) as [Hp1 _].
  { pose proof (calculate_abs_trace self x) as Ht. by rewrite Habs in Ht. }
  destruct (composition_no_projection tr3) as [Hp3 _].
  { pose proof (calculate_world_trace self al' wl wr) as Ht. by rewrite Hworld in Ht. }
  destruct (projection_loop_calls self al' wl' wr' pp Hpp L 0 _ _ _ Hloop) as [Hlen Hcalls].
  exists L. split; [done|].
  assert (Heq : projection_calls ([] ++ tr1 ++ tr3 ++ [] ++ tr7 ++ [])
                = projection_calls tr7).
  { unfold projection_calls in *. simpl. rewrite !omap_app, Hp1, Hp3. simpl.
    by rewrite app_nil_r. }
  rewrite Heq. split; [done|]. intros i Hi. by apply (Hcalls i).
Qed.

(** C4. [on_batch_start] creates exactly one camera object, which
    becomes the module's [__pose_projection].  Whatever [project_pose]
    is then given, it creates no object, every projection it makes goes
    through that camera, and when it returns, its projection calls are
    one per frame of the clip, the call for frame [i] receiving frame
    [i] of the absolute locations and of the world placement of all the
    clips of the batch.  The camera is a value that [project_pose] only
    reads: the module, its camera included, is the same before and
    after. *)
Theorem C4_one_camera_per_batch self batch idx self' tr0 :
  on_batch_start self batch idx = (self', (Ok tt, tr0)) →
  ∃ pp,
    created_projections tr0 = [pp] ∧
    __pose_projection self' = Some pp ∧
    ∀ x wl wr res tr,
      project_pose self' x wl wr = (res, tr) →
      Forall (through_camera pp) tr ∧
      created_projections tr = [] ∧
      ∀ proj al ar wloc wrot,
        res = Ok (proj, al, ar, wloc, wrot) →
        ∃ L, shape al !! 1 = Some L ∧ length (projection_calls tr) = L ∧
          ∀ i, i < L →
            ∃ a w r, select1 al i = Ok a ∧ select1 wloc i = Ok w ∧
                     select1 wrot i = Ok r ∧
                     projection_calls tr !! i = Some (pp, a, w, r).
Proof.
  intros Hstart.
  destruct (on_batch_start_camera self batch idx self' tr0 Hstart) as (pp & Hone & Hpp).
  exists pp. split; [done|]. split; [done|].
  intros x wl wr res tr Hrun.
  pose proof (project_pose_through_camera self' pp x wl wr Hpp) as Hthrough.
  rewrite Hrun in Hthrough. simpl in Hthrough.
  split; [done|]. split.
  - clear -Hthrough.
    induction Hthrough as [|e tr He _ IH]; [done|]. by destruct e.
  - intros proj al ar wloc wrot ->. by eapply project_pose_calls.
Qed.

End Camera.

(** ** The checks of [project_pose] *)

Section Checks.
Context `{Collaborators}.

(** C3. An input that breaks the contract of the selected movements
    output type - a tensor of fewer than 5 dimensions for pose changes,
    of fewer than 4 for absolute locations, or a tensor where the tuple
    of absolute locations and rotations is expected - makes
    [project_pose] raise a [RuntimeError] with an empty trace: no
    collaborator was called, no composition was begun.  An input that
    meets the contract passes the checks, and [project_pose] is then the
    composition and projection itself. *)
Theorem C3_shape_errors_are_immediate self x wl wr :
  (breaks_contract (movements_output_type self) x →
   ∃ msg, project_pose self x wl wr = (Raise (RuntimeError msg), [])) ∧
  (meets_contract (movements_output_type self) x →
   check_pose_inputs self x = (Ok tt, []) ∧
   project_pose self x wl wr = project_frames self x wl wr).
Proof.
  unfold project_pose, check_pose_inputs, breaks_contract, meets_contract.
  split.
  - destruct (movements_output_type self), x as [t|a b]; try done; intros Hb; simpl.
    + rewrite decide_True by done. eauto.
    + rewrite decide_True by done. eauto.
    + eauto.
  - destruct (movements_output_type self), x as [t|a b]; try done; intros Hm; simpl;
      rewrite ?decide_False by lia; simpl; (split; [done|]);
      by destruct (project_frames _ _ _ _).
Qed.

End Checks.

(** On the small instance: four dimensions are refused in pose-changes
    mode, five are let through. *)
Lemma C3_shape_errors_witness :
  (∃ msg, project_pose (H := sample_collaborators)
            (sample_module MovementsModelOutputType.pose_changes
               TrajectoryModelOutputType.loc_rot)
            (TensorInput (mkTensor [1; 2; 3; 3] [])) None None
          = (Raise (RuntimeError msg), [])) ∧
  check_pose_inputs
    (sample_module MovementsModelOutputType.pose_changes TrajectoryModelOutputType.loc_rot)
    (TensorInput sample_changes) = (Ok tt, []).
Proof.
  split.
  - apply (C3_shape_errors_are_immediate (H := sample_collaborators)).
    vm_compute. lia.
  - apply (C3_shape_errors_are_immediate (H := sample_collaborators)
             (sample_module MovementsModelOutputType.pose_changes
                TrajectoryModelOutputType.loc_rot)
             (TensorInput sample_changes) None None).
    vm_compute. lia.
Defined.

(** ** Clips of no frame *)

Section EmptyClip.
Context `{Collaborators}.

Lemma empty_no_frame u n rest : data (empty u (n :: 0 :: rest)) = [].
Proof. simpl. by rewrite Nat.mul_0_r. Qed.

(** C8, as the code has it.  A pose-changes input whose clip-length
    dimension is zero raises nothing: [forward] is called for no frame,
    the absolute locations and rotations are the tensors of shape
    [(N, 0, B, 3)] and [(N, 0, B, 3, 3)], which hold no scalar, and
    [project_pose] projects no frame and returns them with whatever the
    world accumulator returned for them. *)
Theorem C8_zero_length_clip_yields_empty_result
    self x n b rest pose peds ref_loc ref_rot wl wr wloc wrot trw :
  movements_output_type self = MovementsModelOutputType.pose_changes →
  shape x = n :: 0 :: b :: rest →
  5 ≤ ndim x →
  __pedestrians self = Some (pose :: peds) →
  get_reference_tensors self = (Ok (ref_loc, ref_rot), []) →
  __calculate_world self (empty uninit [n; 0; b; 3]) wl wr = (Ok (wloc, wrot), trw) →
  __calculate_abs self (TensorInput x)
  = (Ok (empty uninit [n; 0; b; 3], Some (empty uninit [n; 0; b; 3; 3])), []) ∧
  project_pose self (TensorInput x) wl wr
  = (Ok (empty uninit [n; 0; b; 3], empty uninit [n; 0; b; 3],
         Some (empty uninit [n; 0; b; 3; 3]), wloc, wrot), trw) ∧
  data (empty uninit [n; 0; b; 3]) = [] ∧
  data (empty uninit [n; 0; b; 3; 3]) = [].
Proof.
  intros Hmode Hx Hnd Hpeds Href Hworld.
  assert (Habs : __calculate_abs self (TensorInput x)
                 = (Ok (empty uninit [n; 0; b; 3], Some (empty uninit [n; 0; b; 3; 3])), [])).
  { unfold __calculate_abs. rewrite Hmode. unfold _calculate_abs_from_pose_changes.
    change (input_tensor (TensorInput x)) with (ret x). rewrite bind_ret.
    rewrite Hx. change (unpack3 (n :: 0 :: b :: rest)) with (ret (n, 0, b)).
    rewrite bind_ret. cbv beta iota.
    rewrite Href, bind_Ok. cbv beta iota.
    rewrite (first_pose_cons self pose peds Hpeds), bind_ret. done. }
  split; [done|]. split; [|split; apply empty_no_frame].
  unfold project_pose, check_pose_inputs. rewrite Hmode.
  change (input_ndim (TensorInput x)) with (ret (ndim x)). rewrite bind_ret.
  rewrite decide_False by lia. rewrite bind_ret.
  unfold project_frames. rewrite Habs, bind_Ok. cbv beta iota.
  rewrite Hworld. cbn [fst snd]. rewrite bind_Ok. cbv beta iota. cbn [fst snd].
  change (list_get (shape (empty uninit [n; 0; b; 3])) 1) with (@ret nat 0).
  rewrite bind_ret. simpl. by rewrite app_nil_r.
Qed.

End EmptyClip.

(** C8 as stated fails: on the small instance, a clip of no frame goes
    through [project_pose] without an exception. *)
Lemma C8_zero_length_clip_counterexample :
  shape empty_clip !! 1 = Some 0 ∧
  ∃ out,
    project_pose (H := sample_collaborators)
      (sample_module MovementsModelOutputType.pose_changes TrajectoryModelOutputType.loc_rot)
      (TensorInput empty_clip) None None = (Ok out, []) ∧
    ∀ e tr,
      project_pose (H := sample_collaborators)
        (sample_module MovementsModelOutputType.pose_changes TrajectoryModelOutputType.loc_rot)
        (TensorInput empty_clip) None None ≠ (Raise e, tr).
Proof.
  split; [done|]. eexists. split.
  - vm_compute. reflexivity.
  - intros e tr. vm_compute. discriminate.
Qed.

Lemma C8_zero_length_clip_witness :
  ∃ wloc wrot,
    project_pose (H := sample_collaborators)
      (sample_module MovementsModelOutputType.pose_changes TrajectoryModelOutputType.loc_rot)
      (TensorInput empty_clip) None None
    = (Ok (mkTensor [1; 0; 1; 3] [], mkTensor [1; 0; 1; 3] [],
           Some (mkTensor [1; 0; 1; 3; 3] []), wloc, wrot), []).
Proof.
  eexists _, _.
  refine (proj1 (proj2 (C8_zero_length_clip_yields_empty_result (H := sample_collaborators)
    (sample_module MovementsModelOutputType.pose_changes TrajectoryModelOutputType.loc_rot)
    empty_clip 1 1 [3; 3]
    (mkControlledPedestrian "adult" "female" "cpu" None) []
    (mkTensor [1; 1; 3] [0; 1; 0]%float)
    (mkTensor [1; 1; 3; 3] [1; 0; 0; 0; 1; 0; 0; 0; 1]%float)
    None None _ _ [] _ _ _ _ _ _))).
  - reflexivity.
  - reflexivity.
  - vm_compute. lia.
  - reflexivity.
  - vm_compute. reflexivity.
  - vm_compute. reflexivity.
Defined.

(** ** Scalars at a multi-index *)

Lemma offset_lt s idx o : offset s idx = Some o → o < numel s.
Proof.
  revert idx o; induction s as [|d s IH]; intros [|i idx] o; simpl; try done.
  - intros [= <-]. lia.
  - destruct (decide (i < d)) as [Hi|]; [|done].
    destruct (offset s idx) as [o'|] eqn:Ho; [|done]. simpl. intros [= <-].
    specialize (IH idx o' Ho). nia.
Qed.

Lemma numel_last s d : last s = Some d → ∃ k, numel s = k * d.
Proof.
  induction s as [|a s IH]; [done|]. destruct s as [|a' s].
  - intros [= ->]. exists 1. simpl. lia.
  - intros Hl. destruct (IH Hl) as [k Hk]. exists (a * k).
    change (numel (a :: a' :: s)) with (a * numel (a' :: s)). rewrite Hk. lia.
Qed.

Lemma offset_last_mod s idx c o d :
  offset s (idx ++ [c]) = Some o → last s = Some d → o `mod` d = c.
Proof.
  revert idx o; induction s as [|a s IH]; intros idx o; [by destruct idx|].
  destruct idx as [|i idx]; simpl.
  - destruct (decide (c < a)) as [Hc|]; [|done].
    destruct s as [|a' s]; [|done]. simpl. intros [= <-] [= <-].
    rewrite Nat.mul_1_r, Nat.add_0_r. by apply Nat.mod_small.
  - destruct (decide (i < a)) as [Hi|]; [|done].
    destruct (offset s (idx ++ [c])) as [o'|] eqn:Ho; [|done]. simpl. intros [= <-] Hl.
    destruct s as [|a' s]; [by destruct idx|].
    change (last (a :: a' :: s)) with (last (a' :: s)) in Hl.
    destruct (numel_last _ _ Hl) as [k Hk]. rewrite Hk.
    specialize (IH idx o' Ho Hl).
    assert (d ≠ 0).
    { intros ->. pose proof (offset_lt _ _ _ Ho) as Hlt. rewrite Hk in Hlt. lia. }
    replace (i * (k * d) + o') with (o' + (i * k) * d) by lia.
    by rewrite Nat.Div0.mod_add.
Qed.

Lemma fill_last_shape t c x t' : fill_last t c x = Ok t' → shape t' = shape t.
Proof.
  unfold fill_last. destruct (last (shape t)); [|done].
  destruct (decide _); [|done]. by intros [= <-].
Qed.

(** Wherever [idx ++ [c]] is a position of the tensor, [t[..., c] = x]
    has put [x]. *)
Lemma fill_last_get t c x t' idx :
  fill_last t c x = Ok t' →
  (∀ v, get t' (idx ++ [c]) = Some v → v = x) ∧
  (wf t → is_Some (offset (shape t) (idx ++ [c])) → get t' (idx ++ [c]) = Some x).
Proof.
  unfold fill_last. destruct (last (shape t)) as [d|] eqn:Hl; [|done].
  destruct (decide (c < d)); [|done]. intros [= <-]. unfold get. simpl.
  destruct (offset (shape t) (idx ++ [c])) as [o|] eqn:Ho; simpl.
  - pose proof (offset_last_mod _ _ _ _ _ Ho Hl) as Hmod.
    rewrite list_lookup_imap. split.
    + intros v. destruct (data t !! o); simpl; [|done].
      rewrite decide_True by done. by intros [= <-].
    + intros Hwf _. pose proof (offset_lt _ _ _ Ho) as Hlt.
      destruct (lookup_lt_is_Some_2 (data t) o) as [y ->]; [by rewrite Hwf|].
      simpl. by rewrite decide_True.
  - split; [done|]. by intros _ [? ?].
Qed.

Lemma get_zeros s idx : is_Some (offset s idx) → get (zeros s) idx = Some 0%float.
Proof.
  intros [o Ho]. unfold get. simpl. rewrite Ho. simpl.
  apply lookup_replicate_2. by eapply offset_lt.
Qed.

Lemma lookup_concat_replicate {A} (blk : list A) n i o :
  i < n → o < length blk →
  concat (replicate n blk) !! (i * length blk + o) = blk !! o.
Proof.
  revert i; induction n as [|n IH]; intros i Hi Ho; [lia|]. simpl.
  destruct i as [|i].
  - simpl. by rewrite lookup_app_l.
  - rewrite lookup_app_r by (simpl; lia).
    replace (S i * length blk + o - length blk) with (i * length blk + o) by (simpl; lia).
    apply IH; lia.
Qed.

Lemma length_concat_replicate {A} (blk : list A) n :
  length (concat (replicate n blk)) = n * length blk.
Proof. induction n as [|n IH]; simpl; [done|]. rewrite length_app, IH. lia. Qed.

(** [torch.eye(3).reshape((1, 1, 3, 3)).repeat((n, l, 1, 1))] *)
Lemma eye_repeat n l :
  (match reshape (eye 3) [1; 1; 3; 3] with
   | Ok e => repeat e [n; l; 1; 1]
   | Raise e => Raise e
   end)
  = Ok (mkTensor [n; l; 3; 3] (concat (replicate n (concat (replicate l (data (eye 3))))))).
Proof.
  unfold reshape, repeat. simpl. f_equal. f_equal.
  - f_equal; [lia|]. f_equal. lia.
  - by rewrite !app_nil_r.
Qed.

Lemma get_eye_repeat n l i j r c :
  i < n → j < l → r < 3 → c < 3 →
  get (mkTensor [n; l; 3; 3] (concat (replicate n (concat (replicate l (data (eye 3)))))))
      [i; j; r; c]
  = Some (if decide (r = c) then 1%float else 0%float).
Proof.
  intros Hi Hj Hr Hc.
  remember (data (eye 3)) as e9 eqn:He9.
  assert (He : length e9 = 9) by (by subst e9).
  unfold get. simpl. rewrite !decide_True by done. simpl.
  set (blk := concat (replicate l e9)).
  assert (Hblk : length blk = l * 9)
    by (unfold blk; by rewrite length_concat_replicate, He).
  replace (i * (l * 9) + (j * 9 + (r * 3 + (c * 1 + 0))))
    with (i * length blk + (j * length e9 + (r * 3 + c)))
    by (rewrite Hblk, He; lia).
  rewrite lookup_concat_replicate by (rewrite ?Hblk, ?He; lia).
  unfold blk. rewrite lookup_concat_replicate by (rewrite ?He; lia).
  subst e9. destruct r as [|[|[|r]]], c as [|[|[|c]]]; try lia; done.
Qed.

(** ** The world accumulator in location+rotation mode *)

Section World.
Context `{Collaborators}.

(** C6. In location+rotation mode the world accumulator hands back the
    world locations and rotations it is given.  A missing one is
    replaced: locations by the [(batch, clip_length, 3)] tensor of zeros,
    rotations by the [(batch, clip_length, 3, 3)] tensor that holds the
    identity matrix at every frame of every batch element.  It calls no
    collaborator. *)
Theorem C6_world_from_loc_rot_is_pass_through self absolute_loc n l rest wl wr :
  trajectory_output_type self = TrajectoryModelOutputType.loc_rot →
  shape absolute_loc = n :: l :: rest →
  ∃ world_loc world_rot,
    __calculate_world self absolute_loc wl wr = (Ok (world_loc, world_rot), []) ∧
    (∀ t, wl = Some t → world_loc = t) ∧
    (∀ t, wr = Some t → world_rot = t) ∧
    (wl = None →
       world_loc = zeros [n; l; 3] ∧
       ∀ i j c, i < n → j < l → c < 3 → get world_loc [i; j; c] = Some 0%float) ∧
    (wr = None →
       shape world_rot = [n; l; 3; 3] ∧
       ∀ i j r c, i < n → j < l → r < 3 → c < 3 →
         get world_rot [i; j; r; c] = Some (if decide (r = c) then 1%float else 0%float)).
Proof.
  intros Hmode Hs. unfold __calculate_world. rewrite Hmode.
  unfold _calculate_world_from_loc_rot. rewrite Hs.
  change (unpack2 (n :: l :: rest)) with (ret (n, l)). rewrite bind_ret. cbv beta iota.
  pose proof (eye_repeat n l) as Heye.
  destruct (reshape (eye 3) [1; 1; 3; 3]) as [e|] eqn:He; [|done].
  destruct wr as [rt|].
  - rewrite bind_ret. eexists _, _. split; [reflexivity|].
    split; [|split; [by intros ? [= ->]|split; [|done]]].
    + destruct wl; by intros ? [= ->].
    + intros ->. split; [done|]. intros i j c Hi Hj Hc. apply get_zeros. simpl.
      rewrite !decide_True by done. simpl. eauto.
  - rewrite bind_lift_Ok, Heye, bind_lift_Ok. eexists _, _. split; [reflexivity|].
    split; [|split; [done|split]].
    + destruct wl; by intros ? [= ->].
    + intros ->. split; [done|]. intros i j c Hi Hj Hc. apply get_zeros. simpl.
      rewrite !decide_True by done. simpl. eauto.
    + intros _. split; [done|]. intros i j r c. apply get_eye_repeat.
Qed.

End World.

Lemma C6_world_from_loc_rot_witness :
  ∃ world_loc world_rot,
    __calculate_world (H := sample_collaborators)
      (sample_module MovementsModelOutputType.pose_changes TrajectoryModelOutputType.loc_rot)
      (zeros [2; 2; 1; 3]) None None = (Ok (world_loc, world_rot), []) ∧
    get world_loc [1; 0; 2] = Some 0%float ∧
    get world_rot [1; 1; 2; 2] = Some 1%float ∧
    get world_rot [1; 1; 2; 1] = Some 0%float.
Proof.
  destruct (C6_world_from_loc_rot_is_pass_through (H := sample_collaborators)
              (sample_module MovementsModelOutputType.pose_changes
                 TrajectoryModelOutputType.loc_rot)
              (zeros [2; 2; 1; 3]) 2 2 [1; 3] None None)
    as (world_loc & world_rot & Hrun & _ & _ & Hloc & Hrot).
  - reflexivity.
  - reflexivity.
  - exists world_loc, world_rot. split; [exact Hrun|].
    destruct (Hloc eq_refl) as [_ Hloc']. destruct (Hrot eq_refl) as [_ Hrot'].
    split; [apply Hloc'; lia|]. split; [apply (Hrot' 1 1 2 2); lia|apply (Hrot' 1 1 2 1); lia].
Defined.
(** ** The confidence channel of the synthetic generator *)

Section Confidence.
Context `{Collaborators} `{GeneratorCollaborators}.

Lemma unknown_keyword : "pose_inputs_batch" ∉ forward_parameters.
Proof.
  intros Hin. unfold forward_parameters in Hin.
  repeat (apply elem_of_cons in Hin as [Hin|Hin]; [discriminate Hin|]).
  by apply elem_of_nil in Hin.
Qed.

Lemma call_with_unknown_keyword module x kwargs :
  __call__ module (("pose_inputs_batch", x) :: kwargs) = raise TypeError.
Proof.
  unfold __call__. rewrite decide_False; [done|].
  intros Hall. apply Forall_inv in Hall. by apply unknown_keyword.
Qed.

(** C2. [generate_batch] means to do what the claim says: the
    assignment of line 189 leaves 1.0 at index 2 of the last dimension
    of the projection, at every position.  But no call gets there: the
    projection module is called with the keyword [pose_inputs_batch]
    (lines 179-183), which is no parameter of [ProjectionModule.forward],
    so the call raises [TypeError] before anything is projected.
    [generate_batch] returns no batch for any draws; whenever
    [on_batch_start] has returned, the error is that [TypeError], raised
    after the pedestrians and the camera are created and before
    [process_projection_2d] is called. *)
Theorem C2_generate_batch_raises_before_confidence self batch_size_arg draws :
  (∀ p2d tgts meta tr,
     generate_batch self batch_size_arg draws ≠ (Ok (p2d, tgts, meta), tr)) ∧
  (∀ module' tr0,
     on_batch_start (projection self)
       (mkBatch (euler_angles_to_matrix (drawn_pose_changes draws)) "cpu"
          (<["gender" := drawn_gender draws]> (<["age" := drawn_age draws]> ∅))) 0
     = (module', (Ok tt, tr0)) →
     generate_batch self batch_size_arg draws = (Raise TypeError, tr0)) ∧
  (∀ orig confident,
     fill_last orig 2 1%float = Ok confident →
     shape confident = shape orig ∧
     ∀ idx v, get confident (idx ++ [2]) = Some v → v = 1%float).
Proof.
  split; [|split]; [| |intros orig confident Hfill; split;
    [by eapply fill_last_shape|intros idx; by apply (fill_last_get orig 2 1%float)]];
    unfold generate_batch; cbv zeta;
    destruct (on_batch_start _ _ _) as [module' [[[]|e] tr0]].
  - rewrite bind_Ok, call_with_unknown_keyword. cbn [fst snd].
    intros p2d tgts meta tr Hrun. discriminate Hrun.
  - intros p2d tgts meta tr Hrun. discriminate Hrun.
  - rewrite bind_Ok, call_with_unknown_keyword. cbn [fst snd].
    intros module'' tr0' [= _ <-]. by rewrite app_nil_r.
  - intros module'' tr0' Hstart. discriminate Hstart.
Qed.

End Confidence.

(** One clip of one frame: the pedestrian and the camera are created,
    then the call of the projection module raises. *)
Lemma C2_generate_batch_failing_input :
  generate_batch (H := sample_collaborators) (H0 := sample_generator_collaborators)
    sample_dataset None sample_draws
  = (Raise TypeError,
     [NewPedestrian (mkControlledPedestrian "adult" "female" "cpu" None);
      NewPoseProjection
        (mkP3dPoseProjection "cpu" (mkControlledPedestrian "adult" "female" "cpu" None))]).
Proof.
  apply (proj1 (proj2 (C2_generate_batch_raises_before_confidence
                  (H := sample_collaborators) (H0 := sample_generator_collaborators)
                  sample_dataset None sample_draws))
           (mkProjectionModule MovementsModelOutputType.pose_changes
              TrajectoryModelOutputType.changes
              (Some [mkControlledPedestrian "adult" "female" "cpu" None])
              (Some (mkP3dPoseProjection "cpu"
                       (mkControlledPedestrian "adult" "female" "cpu" None)))
              (Some (zeros [1; 3]))
              (Some (mkTensor [1; 3; 3] (data (eye 3)))))).
  vm_compute. reflexivity.
Defined.

(** ** The coordinate correction and the points behind the camera *)

Section Correction.
Context `{CameraLibrary}.

(** C5. [current_pose_to_points] corrects every input the same way
    before it projects: the root transform has the x and y of the
    pedestrian's world location swapped and z kept, and the negated yaw
    (pitch and roll are the defaults of [carla.Rotation]); every absolute
    bone location has its x negated and its y and z kept, then goes
    through the root transform, bone by bone in the order of the pose;
    the projected points are these. *)
Theorem C5_coordinate_correction self :
  Carla.location (root_transform self)
  = swap_xy (Carla.location (transform (_pedestrian self))) ∧
  Carla.rotation (root_transform self)
  = Carla.mkRotation 0 (- Carla.yaw (Carla.rotation (transform (_pedestrian self)))) 0 ∧
  (∀ l, Carla.x (swap_xy l) = Carla.y l ∧ Carla.y (swap_xy l) = Carla.x l ∧
        Carla.z (swap_xy l) = Carla.z l) ∧
  (∀ l, Carla.x (flip_x l) = (- Carla.x l)%float ∧ Carla.y (flip_x l) = Carla.y l ∧
        Carla.z (flip_x l) = Carla.z l) ∧
  length (relativeBones self) = length (current_pose_absolute (_pedestrian self)) ∧
  (∀ i bone, current_pose_absolute (_pedestrian self) !! i = Some bone →
     relativeBones self !! i
     = Some (Transform_transform (root_transform self) (flip_x (Carla.location bone.2)))) ∧
  current_pose_to_points self
  = imageFromSpace (camera self)
      ((λ b, (Carla.x b, Carla.y b, Carla.z b)) <$> relativeBones self) false.
Proof.
  split; [done|]. split; [done|]. split; [done|]. split; [done|].
  split; [apply length_fmap|]. split; [|done].
  intros i bone Hb. unfold relativeBones. by rewrite list_lookup_fmap, Hb.
Qed.


End Correction.

(** On the small instance the second bone ends up behind the camera and
    is projected all the same. *)
Lemma C5_coordinate_correction_witness :
  relativeBones (H := sample_camera_library) sample_pose_projection !! 1
  = Some (Carla.mkLocation 1.5 (-3) 4).
Proof.
  rewrite (proj1 (proj2 (proj2 (proj2 (proj2 (proj2
             (C5_coordinate_correction (H := sample_camera_library)
                sample_pose_projection))))))
             1 ("crl_hips__C",
                Carla.mkTransform (Carla.mkLocation 0.5 (-4) 1) (Carla.mkRotation 0 0 0))
             eq_refl).
  vm_compute. reflexivity.
Defined.



(** ** Missing metadata *)

Lemma bind_Raise_r {A B} (m : M A) (f : A → M B) :
  (∀ a, ∃ e tr, f a = (Raise e, tr)) → ∃ e tr, m ≫= f = (Raise e, tr).
Proof.
  intros Hf. destruct m as [[a|e] tr]; [|by eauto].
  rewrite bind_Ok. destruct (Hf a) as (e & tr' & ->). simpl. eauto.
Qed.

Lemma from_abs_missing `{Collaborators} x ages genders n rest i :
  shape x = n :: rest → i < n →
  has_reference_skeleton ages genders i = false →
  from_abs x ages genders = Raise MissingMetadataError.
Proof.
  intros Hx Hi Hmissing. unfold from_abs. rewrite Hx. simpl.
  destruct (forallb _ (seq 0 n)) eqn:Hall; [|done].
  rewrite forallb_forall in Hall. rewrite (Hall i) in Hmissing; [done|].
  apply in_seq. lia.
Qed.

Lemma no_reference_skeleton (peds : list ControlledPedestrian) i :
  (∀ p, peds !! i = Some p → (age p, gender p) ∉ reference_skeletons) →
  has_reference_skeleton (age <$> peds) (gender <$> peds) i = false.
Proof.
  intros Hmissing. unfold has_reference_skeleton. rewrite !list_lookup_fmap.
  destruct (peds !! i) as [p|]; [|done]. simpl.
  apply bool_decide_eq_false. by apply Hmissing.
Qed.

Section Getitem.
Variable array_item : MetaValue → Numpy.dtype → Result MetaValue.

Local Abbreviation meta_body item :=
  (λ '(key, template_dtype) (common_meta : gmap string MetaValue),
     match item_meta item !! key with
     | Some v => v' ← lift (array_item v template_dtype);
                 ret (<[key := v']> common_meta)
     | None => v' ← lift (nan_item template_dtype);
               ret (<[key := v']> common_meta)
     end).

Lemma meta_loop_Ok item tpl :
  ∀ acc res tr,
    for_each tpl (meta_body item) acc = (Ok res, tr) →
    (∀ key, key ∉ tpl.*1 → res !! key = acc !! key) ∧
    (NoDup tpl.*1 →
     ∀ key dt, (key, dt) ∈ tpl → item_meta item !! key = None →
       ∃ v, nan_item dt = Ok v ∧ res !! key = Some v).
Proof.
  induction tpl as [|[k d] tpl IH]; intros acc res tr Hrun.
  - injection Hrun as <- _. split; [done|]. intros _ key dt Hin. by apply elem_of_nil in Hin.
  - change (for_each ((k, d) :: tpl) ?f ?s) with (f (k, d) s ≫= for_each tpl f) in Hrun.
    apply bind_inv_Ok in Hrun as (acc1 & tr1 & tr2 & Hbody & Hrest & ->).
    destruct (IH _ _ _ Hrest) as [Hout Hin].
    assert (Hacc1 : ∃ v, acc1 = <[k := v]> acc ∧
                         (item_meta item !! k = None → nan_item d = Ok v)).
    { cbv beta iota in Hbody. destruct (item_meta item !! k) as [v0|].
      - destruct (array_item v0 d) as [v|]; [|done]. rewrite bind_lift_Ok in Hbody.
        injection Hbody as <- _. exists v. done.
      - destruct (nan_item d) as [v|]; [|done]. rewrite bind_lift_Ok in Hbody.
        injection Hbody as <- _. exists v. done. }
    destruct Hacc1 as (v & -> & Hv). split.
    + intros key Hkey. rewrite fmap_cons, not_elem_of_cons in Hkey.
      destruct Hkey as [Hne Hkey]. rewrite (Hout key Hkey).
      by rewrite lookup_insert_ne.
    + intros Hnd key dt Hkey Hmiss. rewrite fmap_cons in Hnd.
      apply NoDup_cons in Hnd as [Hk Hnd].
      apply elem_of_cons in Hkey as [[= -> ->]|Hkey].
      * exists v. split; [by apply Hv|]. rewrite (Hout k Hk). apply lookup_insert_eq.
      * by apply (Hin Hnd key dt).
Qed.

Lemma meta_loop_int item tpl key :
  (key, Numpy.int64) ∈ tpl → item_meta item !! key = None →
  ∀ acc, ∃ e tr, for_each tpl (meta_body item) acc = (Raise e, tr).
Proof.
  induction tpl as [|[k d] tpl IH]; intros Hin Hmiss acc.
  - by apply elem_of_nil in Hin.
  - change (for_each ((k, d) :: tpl) ?f ?s) with (f (k, d) s ≫= for_each tpl f).
    apply elem_of_cons in Hin as [[= <- <-]|Hin].
    + cbv beta iota. rewrite Hmiss. simpl. eauto.
    + apply bind_Raise_r. intros acc1. by apply IH.
Qed.


End Getitem.



(** ** The statements on the small instance *)

Lemma sample_forward_contract : forward_contract (H := sample_collaborators).
Proof.
  intros pose c loc rot n b rest Hc. simpl. rewrite Hc. simpl.
  split; (split; [done|]); simpl; by rewrite length_replicate.
Qed.

Lemma sample_relative_to_absolute_contract :
  relative_to_absolute_contract (H := sample_collaborators).
Proof.
  intros pose loc c n b rest Hc. simpl. rewrite Hc. simpl.
  split; (split; [done|]); simpl; by rewrite length_replicate.
Qed.

(** Two frames, two calls; the second frame of the absolute locations is
    what the second call returned, which carries the first change in its
    relative rotation. *)
Lemma C1_pose_changes_recurrence_witness :
  ∃ loc rot,
    __calculate_abs (H := sample_collaborators)
      (sample_module MovementsModelOutputType.pose_changes TrajectoryModelOutputType.loc_rot)
      (TensorInput sample_changes)
    = (Ok (loc, Some rot),
       [PoseForward (mkControlledPedestrian "adult" "female" "cpu" None)
          (mkTensor [1; 1; 3; 3] [1; 2; 3; 4; 5; 6; 7; 8; 9]%float)
          (mkTensor [1; 1; 3] [0; 1; 0]%float)
          (mkTensor [1; 1; 3; 3] [1; 0; 0; 0; 1; 0; 0; 0; 1]%float);
        PoseForward (mkControlledPedestrian "adult" "female" "cpu" None)
          (mkTensor [1; 1; 3; 3] [10; 20; 30; 40; 50; 60; 70; 80; 90]%float)
          (mkTensor [1; 1; 3] [0; 1; 0]%float)
          (mkTensor [1; 1; 3; 3] [2; 1; 1; 1; 2; 1; 1; 1; 2]%float)]) ∧
    select1 loc 0 = Ok (mkTensor [1; 1; 3] [2; 2; 2]%float) ∧
    select1 loc 1 = Ok (mkTensor [1; 1; 3] [12; 12; 12]%float).
Proof.
  destruct (C1_pose_changes_recurrence (H := sample_collaborators)
              (sample_module MovementsModelOutputType.pose_changes
                 TrajectoryModelOutputType.loc_rot)
              sample_changes 1 2 1 [3; 3]
              (mkControlledPedestrian "adult" "female" "cpu" None) []
              (mkTensor [1; 1; 3] [0; 1; 0]%float)
              (mkTensor [1; 1; 3; 3] [1; 0; 0; 0; 1; 0; 0; 0; 1]%float))
    as (loc & rot & Hrun & _ & Hframes & _).
  - reflexivity.
  - exact sample_forward_contract.
  - reflexivity.
  - reflexivity.
  - vm_compute. reflexivity.
  - exists loc, rot. split; [exact Hrun|]. split.
    + destruct (Hframes 0 (mkTensor [1; 1; 3; 3] [1; 2; 3; 4; 5; 6; 7; 8; 9]%float) eq_refl)
        as (_ & Hloc & _).
      rewrite Hloc. vm_compute. reflexivity.
    + destruct (Hframes 1
                  (mkTensor [1; 1; 3; 3] [10; 20; 30; 40; 50; 60; 70; 80; 90]%float) eq_refl)
        as (_ & Hloc & _).
      rewrite Hloc. vm_compute. reflexivity.
Defined.

Lemma C10_relative_rot_witness :
  ∃ loc rot,
    __calculate_abs (H := sample_collaborators)
      (sample_module MovementsModelOutputType.relative_rot TrajectoryModelOutputType.loc_rot)
      (TensorInput sample_changes)
    = (Ok (loc, Some rot),
       [PoseRelativeToAbsolute (mkControlledPedestrian "adult" "female" "cpu" None)
          (mkTensor [1; 1; 3] [0; 1; 0]%float)
          (mkTensor [1; 1; 3; 3] [1; 2; 3; 4; 5; 6; 7; 8; 9]%float);
        PoseRelativeToAbsolute (mkControlledPedestrian "adult" "female" "cpu" None)
          (mkTensor [1; 1; 3] [0; 1; 0]%float)
          (mkTensor [1; 1; 3; 3] [10; 20; 30; 40; 50; 60; 70; 80; 90]%float)]) ∧
    select1 loc 1 = Ok (mkTensor [1; 1; 3] [10; 10; 10]%float).
Proof.
  destruct (C10_relative_rot_frames_independent (H := sample_collaborators)
              (sample_module MovementsModelOutputType.relative_rot
                 TrajectoryModelOutputType.loc_rot)
              sample_changes 1 2 1 [3; 3]
              (mkControlledPedestrian "adult" "female" "cpu" None) []
              (mkTensor [1; 1; 3] [0; 1; 0]%float))
    as (loc & rot & Hrun & _ & Hframes & _).
  - reflexivity.
  - exact sample_relative_to_absolute_contract.
  - reflexivity.
  - reflexivity.
  - vm_compute. reflexivity.
  - exists loc, rot. split; [exact Hrun|].
    destruct (Hframes 1
                (mkTensor [1; 1; 3; 3] [10; 20; 30; 40; 50; 60; 70; 80; 90]%float) eq_refl)
      as [Hloc _].
    rewrite Hloc. vm_compute. reflexivity.
Defined.

Lemma C4_one_camera_witness :
  ∃ pp tr,
    __pose_projection
      (sample_module MovementsModelOutputType.pose_changes TrajectoryModelOutputType.loc_rot)
    = Some pp ∧
    (project_pose (H := sample_collaborators)
       (sample_module MovementsModelOutputType.pose_changes TrajectoryModelOutputType.loc_rot)
       (TensorInput sample_changes) None None).2 = tr ∧
    Forall (through_camera pp) tr ∧
    length (projection_calls tr) = 2.
Proof.
  destruct (C4_one_camera_per_batch (H := sample_collaborators)
              (__init__ MovementsModelOutputType.pose_changes TrajectoryModelOutputType.loc_rot)
              sample_batch 0
              (sample_module MovementsModelOutputType.pose_changes
                 TrajectoryModelOutputType.loc_rot)
              [NewPedestrian (mkControlledPedestrian "adult" "female" "cpu" None);
               NewPoseProjection
                 (mkP3dPoseProjection "cpu"
                    (mkControlledPedestrian "adult" "female" "cpu" None))])
    as (pp & _ & Hpp & Hproject).
  - vm_compute. reflexivity.
  - destruct (project_pose (H := sample_collaborators)
                (sample_module MovementsModelOutputType.pose_changes
                   TrajectoryModelOutputType.loc_rot)
                (TensorInput sample_changes) None None) as [res tr] eqn:Hrun.
    destruct (Hproject _ _ _ _ _ Hrun) as (Hthrough & _ & Hcalls).
    exists pp, tr. split; [exact Hpp|]. split; [reflexivity|]. split; [exact Hthrough|].
    vm_compute in Hrun. injection Hrun as <- <-. vm_compute. reflexivity.
Defined.

(** * Further properties *)

(** ** [on_batch_start] *)

Lemma bind_lift_Raise_l {A B} e (f : A → M B) : lift (Raise e) ≫= f = (Raise e, []).
Proof. done. Qed.

Lemma dict_get_Some {V} (d : gmap string V) k v : d !! k = Some v → dict_get d k = ret v.
Proof. intros Hk. unfold dict_get. by rewrite Hk. Qed.

Lemma list_get_Some {V} (l : list V) i v : l !! i = Some v → list_get l i = ret v.
Proof. intros Hi. unfold list_get. by rewrite Hi. Qed.

Lemma new_pedestrian_Ok batch idx ages genders a g :
  meta batch !! "age" = Some ages → meta batch !! "gender" = Some genders →
  ages !! idx = Some a → genders !! idx = Some g →
  (∀ poses, meta batch !! "reference_pose" = Some poses → idx < length poses) →
  new_pedestrian batch idx
  = call (NewPedestrian
            (mkControlledPedestrian a g (frames_device batch)
               (meta batch !! "reference_pose" ≫= (.!! idx))))
         (mkControlledPedestrian a g (frames_device batch)
            (meta batch !! "reference_pose" ≫= (.!! idx))).
Proof.
  intros Hages Hgenders Ha Hg Hposes. unfold new_pedestrian.
  rewrite (dict_get_Some _ _ _ Hages), bind_ret, (list_get_Some _ _ _ Ha), bind_ret.
  rewrite (dict_get_Some _ _ _ Hgenders), bind_ret, (list_get_Some _ _ _ Hg), bind_ret.
  destruct (meta batch !! "reference_pose") as [poses|].
  - destruct (lookup_lt_is_Some_2 poses idx (Hposes poses eq_refl)) as [p Hp].
    rewrite (list_get_Some _ _ _ Hp), bind_ret, bind_ret. simpl. by rewrite Hp.
  - by rewrite bind_ret.
Qed.

Lemma new_pedestrians_Ok batch n ages genders :
  meta batch !! "age" = Some ages → meta batch !! "gender" = Some genders →
  n ≤ length ages → n ≤ length genders →
  (∀ poses, meta batch !! "reference_pose" = Some poses → n ≤ length poses) →
  ∀ m k, k + m ≤ n →
    ∃ peds,
      comprehension (seq k m) (new_pedestrian batch) = (Ok peds, NewPedestrian <$> peds) ∧
      length peds = m ∧
      ∀ d p, peds !! d = Some p →
        ages !! (k + d) = Some (age p) ∧ genders !! (k + d) = Some (gender p) ∧
        ped_device p = frames_device batch ∧
        reference_pose p = meta batch !! "reference_pose" ≫= (.!! (k + d)).
Proof.
  intros Hages Hgenders Hla Hlg Hposes. induction m as [|m IH]; intros k Hk.
  - exists []. split; [done|]. split; [done|]. by intros d p Hd.
  - destruct (lookup_lt_is_Some_2 ages k) as [a Ha]; [lia|].
    destruct (lookup_lt_is_Some_2 genders k) as [g Hg]; [lia|].
    destruct (IH (S k)) as (peds & Hrun & Hlen & Hpeds); [lia|].
    eexists (_ :: peds). split; [|split].
    + change (comprehension (seq k (S m)) ?f)
        with (y ← f k; ys ← comprehension (seq (S k) m) f; ret (y :: ys)).
      rewrite (new_pedestrian_Ok batch k ages genders a g Hages Hgenders Ha Hg).
      * rewrite bind_call, Hrun, bind_Ok. cbn [fst snd ret]. by rewrite app_nil_r.
      * intros poses Hp. specialize (Hposes poses Hp). lia.
    + simpl. by rewrite Hlen.
    + intros [|d] p Hd; simpl in Hd.
      * injection Hd as <-. rewrite Nat.add_0_r. done.
      * replace (k + S d) with (S k + d) by lia. by apply Hpeds.
Qed.

(** [torch.eye(3).reshape((1, 3, 3)).repeat((n, 1, 1))] *)
Lemma initial_world_rotations_eq n :
  initial_world_rotations n
  = Ok (mkTensor [n; 3; 3] (concat (replicate n (data (eye 3))))).
Proof.
  unfold initial_world_rotations, reshape, repeat. simpl.
  by rewrite Nat.add_0_r.
Qed.

Lemma get_initial_world_rotations n i r c :
  i < n → r < 3 → c < 3 →
  get (mkTensor [n; 3; 3] (concat (replicate n (data (eye 3))))) [i; r; c]
  = Some (if decide (r = c) then 1%float else 0%float).
Proof.
  intros Hi Hr Hc.
  remember (data (eye 3)) as e9 eqn:He9.
  assert (He : length e9 = 9) by (by subst e9).
  unfold get. simpl. rewrite !decide_True by done. simpl.
  replace (i * 9 + (r * 3 + (c * 1 + 0))) with (i * length e9 + (r * 3 + c))
    by (rewrite He; lia).
  rewrite lookup_concat_replicate by (rewrite ?He; lia).
  subst e9. destruct r as [|[|[|r]]], c as [|[|[|c]]]; try lia; done.
Qed.

(** X1. For a batch of [n >= 1] clips whose metadata lists an age and a
    gender for every clip, [on_batch_start] returns and leaves the module
    with one pedestrian per clip, in the order of the batch, each with
    the age, the gender and (if the batch has any) the reference pose of
    its clip; with the camera built on the first pedestrian; with world
    locations zero and world rotations the identity for every clip.  The
    trace is the creation of the pedestrians followed by that of the
    camera. *)
Theorem X1_on_batch_start_sets_batch_state self batch idx n rest ages genders :
  shape (frames batch) = n :: rest →
  1 ≤ n →
  meta batch !! "age" = Some ages →
  meta batch !! "gender" = Some genders →
  n ≤ length ages →
  n ≤ length genders →
  (∀ poses, meta batch !! "reference_pose" = Some poses → n ≤ length poses) →
  ∃ peds p0 world_rotations,
    on_batch_start self batch idx
    = (mkProjectionModule (movements_output_type self) (trajectory_output_type self)
         (Some peds) (Some (mkP3dPoseProjection (frames_device batch) p0))
         (Some (zeros [n; 3])) (Some world_rotations),
       (Ok tt,
        (NewPedestrian <$> peds)
          ++ [NewPoseProjection (mkP3dPoseProjection (frames_device batch) p0)])) ∧
    length peds = n ∧
    peds !! 0 = Some p0 ∧
    (∀ i p, peds !! i = Some p →
       ages !! i = Some (age p) ∧ genders !! i = Some (gender p) ∧
       ped_device p = frames_device batch ∧
       reference_pose p = meta batch !! "reference_pose" ≫= (.!! i)) ∧
    shape world_rotations = [n; 3; 3] ∧
    (∀ i r c, i < n → r < 3 → c < 3 →
       get world_rotations [i; r; c] = Some (if decide (r = c) then 1%float else 0%float)) ∧
    (∀ i c, i < n → c < 3 → get (zeros [n; 3]) [i; c] = Some 0%float).
Proof.
  intros Hs Hn Hages Hgenders Hla Hlg Hposes.
  destruct (new_pedestrians_Ok batch n ages genders Hages Hgenders Hla Hlg Hposes n 0)
    as (peds & Hrun & Hlen & Hpeds); [lia|].
  destruct (lookup_lt_is_Some_2 peds 0) as [p0 Hp0]; [lia|].
  exists peds, p0, (mkTensor [n; 3; 3] (concat (replicate n (data (eye 3))))).
  split; [|split; [done|split; [done|split; [|split; [done|split]]]]].
  - unfold on_batch_start, len. rewrite Hs, bind_lift_Ok, Hrun, bind_Ok.
    cbn [fst snd ret]. rewrite app_nil_r, Hp0, initial_world_rotations_eq. done.
  - intros i p Hp. by apply (Hpeds i p).
  - intros i r c. apply get_initial_world_rotations.
  - intros i c Hi Hc. apply get_zeros. simpl. rewrite !decide_True by done. simpl. eauto.
Qed.

Lemma X1_on_batch_start_witness :
  ∃ world_rotations,
    on_batch_start
      (__init__ MovementsModelOutputType.pose_changes TrajectoryModelOutputType.changes)
      sample_batch 7
    = (mkProjectionModule MovementsModelOutputType.pose_changes
         TrajectoryModelOutputType.changes
         (Some [mkControlledPedestrian "adult" "female" "cpu" None])
         (Some (mkP3dPoseProjection "cpu"
                  (mkControlledPedestrian "adult" "female" "cpu" None)))
         (Some (zeros [1; 3])) (Some world_rotations),
       (Ok tt,
        [NewPedestrian (mkControlledPedestrian "adult" "female" "cpu" None);
         NewPoseProjection
           (mkP3dPoseProjection "cpu"
              (mkControlledPedestrian "adult" "female" "cpu" None))])) ∧
    get world_rotations [0; 1; 1] = Some 1%float.
Proof.
  destruct (X1_on_batch_start_sets_batch_state
              (__init__ MovementsModelOutputType.pose_changes
                 TrajectoryModelOutputType.changes)
              sample_batch 7 1 [2; 1; 3; 3] ["adult"] ["female"])
    as (peds & p0 & wr & Hrun & Hlen & Hp0 & Hpeds & _ & Hget & _).
  - reflexivity.
  - lia.
  - reflexivity.
  - reflexivity.
  - simpl. lia.
  - simpl. lia.
  - intros poses Hp. vm_compute in Hp. discriminate.
  - exists wr. split; [|apply (Hget 0 1 1); lia].
    rewrite Hrun. vm_compute in Hrun. injection Hrun as <- <- <-. reflexivity.
Defined.

Lemma comprehension_length {X Y} (xs : list X) (f : X → M Y) ys tr :
  comprehension xs f = (Ok ys, tr) → length ys = length xs.
Proof.
  revert ys tr; induction xs as [|x xs IH]; intros ys tr Hrun.
  - by injection Hrun as <- _.
  - change (comprehension (x :: xs) f)
      with (y ← f x; ys ← comprehension xs f; ret (y :: ys)) in Hrun.
    apply bind_inv_Ok in Hrun as (y & tr1 & tr2 & _ & Hrun & _).
    apply bind_inv_Ok in Hrun as (ys' & tr3 & tr4 & Hrest & Hret & _).
    injection Hret as <- _. simpl. f_equal. by eapply IH.
Qed.

Lemma new_pedestrians_trace batch xs :
  Forall (λ e, ∃ p, e = NewPedestrian p) (comprehension xs (new_pedestrian batch)).2.
Proof. unfold new_pedestrian. trace_solve; eauto. Qed.

Lemma only_pedestrians_created tr :
  Forall (λ e, ∃ p, e = NewPedestrian p) tr → created_projections tr = [].
Proof. induction 1 as [|e tr [p ->] _ IH]; [done|]. done. Qed.

(** X2. [on_batch_start] that raises has created no camera and has left
    the camera and the world state of the module as they were - those of
    the previous batch, if there was one.  The module is untouched
    altogether, except for a batch of no clip: there the pedestrians
    have become the empty list before [IndexError] is raised for the
    first of them. *)
Theorem X2_on_batch_start_failure_keeps_camera self batch idx self' e tr :
  on_batch_start self batch idx = (self', (Raise e, tr)) →
  created_projections tr = [] ∧
  __pose_projection self' = __pose_projection self ∧
  __world_locations self' = __world_locations self ∧
  __world_rotations self' = __world_rotations self ∧
  (self' = self ∨
   (e = IndexError ∧ __pedestrians self' = Some [] ∧ shape (frames batch) !! 0 = Some 0)).
Proof.
  unfold on_batch_start, len.
  pose proof (new_pedestrians_trace batch) as Htrace.
  destruct (shape (frames batch)) as [|n rest] eqn:Hs.
  - rewrite bind_lift_Raise_l. intros [= <- <- <-]. repeat split; auto.
  - rewrite bind_lift_Ok.
    specialize (Htrace (seq 0 n)).
    destruct (comprehension (seq 0 n) (new_pedestrian batch)) as [[peds|e'] tr1] eqn:Hc.
    + rewrite bind_Ok. cbn [fst snd ret]. rewrite app_nil_r.
      apply comprehension_length in Hc. rewrite length_seq in Hc.
      rewrite initial_world_rotations_eq.
      destruct peds as [|p0 peds].
      * simpl. intros [= <- <- <-]. simpl in Hc. subst n.
        split; [by apply only_pedestrians_created|]. repeat split; auto.
      * simpl. done.
    + simpl. intros [= <- <- <-].
      split; [by apply only_pedestrians_created|]. repeat split; auto.
Qed.

Lemma dict_get_None {V} (d : gmap string V) k :
  d !! k = None → dict_get d k = raise (KeyError k).
Proof. intros Hk. unfold dict_get. by rewrite Hk. Qed.

Lemma new_pedestrian_no_age batch idx :
  meta batch !! "age" = None → new_pedestrian batch idx = raise (KeyError "age").
Proof. intros Hage. unfold new_pedestrian. by rewrite (dict_get_None _ _ Hage). Qed.

Lemma new_pedestrian_no_gender batch idx ages a :
  meta batch !! "age" = Some ages → ages !! idx = Some a →
  meta batch !! "gender" = None →
  new_pedestrian batch idx = raise (KeyError "gender").
Proof.
  intros Hage Ha Hgender. unfold new_pedestrian.
  rewrite (dict_get_Some _ _ _ Hage), bind_ret, (list_get_Some _ _ _ Ha), bind_ret.
  by rewrite (dict_get_None _ _ Hgender).
Qed.

(** X3. A batch of at least one clip whose metadata has no ["age"], or
    has ages but no ["gender"], makes [on_batch_start] raise [KeyError]
    for that key before any pedestrian is created; the module is as
    before. *)
Theorem X3_on_batch_start_needs_age_and_gender self batch idx n rest :
  shape (frames batch) = n :: rest →
  1 ≤ n →
  (meta batch !! "age" = None →
   on_batch_start self batch idx = (self, (Raise (KeyError "age"), []))) ∧
  (∀ ages, meta batch !! "age" = Some ages → 1 ≤ length ages →
           meta batch !! "gender" = None →
   on_batch_start self batch idx = (self, (Raise (KeyError "gender"), []))).
Proof.
  intros Hs Hn. destruct n as [|n]; [lia|]. split.
  - intros Hage. unfold on_batch_start, len. rewrite Hs, bind_lift_Ok.
    change (comprehension (seq 0 (S n)) ?f)
      with (y ← f 0; ys ← comprehension (seq 1 n) f; ret (y :: ys)).
    by rewrite (new_pedestrian_no_age batch 0 Hage).
  - intros ages Hage Hlen Hgender. unfold on_batch_start, len. rewrite Hs, bind_lift_Ok.
    change (comprehension (seq 0 (S n)) ?f)
      with (y ← f 0; ys ← comprehension (seq 1 n) f; ret (y :: ys)).
    destruct ages as [|a ages]; [simpl in Hlen; lia|].
    by rewrite (new_pedestrian_no_gender batch 0 (a :: ages) a Hage eq_refl Hgender).
Qed.

Lemma X2_on_batch_start_failure_witness :
  created_projections
    (on_batch_start
       (sample_module MovementsModelOutputType.pose_changes TrajectoryModelOutputType.loc_rot)
       (mkBatch (mkTensor [0; 2; 1; 3; 3] []) "cuda" ∅) 1).2.2 = [] ∧
  __pose_projection
    (on_batch_start
       (sample_module MovementsModelOutputType.pose_changes TrajectoryModelOutputType.loc_rot)
       (mkBatch (mkTensor [0; 2; 1; 3; 3] []) "cuda" ∅) 1).1
  = Some (mkP3dPoseProjection "cpu" (mkControlledPedestrian "adult" "female" "cpu" None)) ∧
  __pedestrians
    (on_batch_start
       (sample_module MovementsModelOutputType.pose_changes TrajectoryModelOutputType.loc_rot)
       (mkBatch (mkTensor [0; 2; 1; 3; 3] []) "cuda" ∅) 1).1 = Some [].
Proof.
  destruct (X2_on_batch_start_failure_keeps_camera
              (sample_module MovementsModelOutputType.pose_changes
                 TrajectoryModelOutputType.loc_rot)
              (mkBatch (mkTensor [0; 2; 1; 3; 3] []) "cuda" ∅) 1
              (mkProjectionModule MovementsModelOutputType.pose_changes
                 TrajectoryModelOutputType.loc_rot (Some [])
                 (Some (mkP3dPoseProjection "cpu"
                          (mkControlledPedestrian "adult" "female" "cpu" None)))
                 (Some (zeros [1; 3]))
                 (Some (mkTensor [1; 3; 3] (data (eye 3)))))
              IndexError [])
    as (Hcreated & Hpp & _).
  - vm_compute. reflexivity.
  - split; [vm_compute; reflexivity|]. split; vm_compute; reflexivity.
Defined.

Lemma X3_on_batch_start_needs_gender_witness :
  on_batch_start
    (__init__ MovementsModelOutputType.pose_changes TrajectoryModelOutputType.changes)
    (mkBatch (mkTensor [2; 2; 1; 3; 3] []) "cpu" (<["age" := ["adult"; "child"]]> ∅)) 0
  = (__init__ MovementsModelOutputType.pose_changes TrajectoryModelOutputType.changes,
     (Raise (KeyError "gender"), [])).
Proof.
  apply (proj2 (X3_on_batch_start_needs_age_and_gender
                  (__init__ MovementsModelOutputType.pose_changes
                     TrajectoryModelOutputType.changes)
                  (mkBatch (mkTensor [2; 2; 1; 3; 3] []) "cpu"
                     (<["age" := ["adult"; "child"]]> ∅)) 0 2 [2; 1; 3; 3]
                  eq_refl ltac:(lia))
           ["adult"; "child"]).
  - reflexivity.
  - simpl. lia.
  - reflexivity.
Defined.

(** ** [project_pose] without a batch, and what it returns with one *)

Section WithoutBatch.
Context `{Collaborators}.

Lemma get_reference_tensors_no_batch self :
  __pedestrians self = None → get_reference_tensors self = raise TypeError.
Proof. intros Hp. unfold get_reference_tensors. by rewrite Hp. Qed.

Lemma calculate_abs_no_batch self x :
  __pedestrians self = None → ∃ e, __calculate_abs self x = (Raise e, []).
Proof.
  intros Hp. unfold __calculate_abs. destruct (movements_output_type self).
  - unfold _calculate_abs_from_pose_changes. destruct x as [t|a b]; [|by eauto].
    change (input_tensor (TensorInput t)) with (ret t). rewrite bind_ret.
    destruct (shape t) as [|n [|l [|b rest]]]; try by eauto.
    change (unpack3 (n :: l :: b :: rest)) with (ret (n, l, b)). rewrite bind_ret.
    cbv beta iota. rewrite (get_reference_tensors_no_batch self Hp). eauto.
  - unfold _calculate_abs_from_abs_loc_output. rewrite Hp. eauto.
  - unfold _calculate_abs_from_abs_loc_rot_output, _calculate_abs_from_abs_loc_output.
    rewrite Hp. destruct x as [t|a b].
    + unfold input_item. destruct (select0 t 0); [rewrite bind_lift_Ok|]; eauto.
    + change (input_item (TupleInput a b) 0) with (ret a). rewrite bind_ret. eauto.
  - unfold _calculate_abs_from_relative_rot, reference_locations.
    destruct x as [t|a b]; [|by eauto].
    change (input_tensor (TensorInput t)) with (ret t). rewrite bind_ret.
    destruct (shape t) as [|n [|l [|b rest]]]; try by eauto.
    change (unpack3 (n :: l :: b :: rest)) with (ret (n, l, b)). rewrite bind_ret.
    cbv beta iota. rewrite (get_reference_tensors_no_batch self Hp). eauto.
Qed.

(** X4. On a module for which [on_batch_start] has not run (its
    pedestrians are [None]), [project_pose] raises for every input, in
    every mode, and calls no collaborator before it does. *)
Theorem X4_project_pose_needs_on_batch_start self x wl wr :
  __pedestrians self = None →
  ∃ e, project_pose self x wl wr = (Raise e, []).
Proof.
  intros Hp. unfold project_pose, project_frames.
  destruct (check_pose_inputs self x) as [[[]|e] tr] eqn:Hcheck.
  - pose proof (check_pose_inputs_trace self x) as Htr. rewrite Hcheck in Htr.
    simpl in Htr. subst tr. rewrite bind_Ok.
    destruct (calculate_abs_no_batch self x Hp) as [e ->]. simpl. eauto.
  - pose proof (check_pose_inputs_trace self x) as Htr. rewrite Hcheck in Htr.
    simpl in Htr. subst tr. eauto.
Qed.

End WithoutBatch.

Lemma X4_project_pose_needs_on_batch_start_witness :
  project_pose (H := sample_collaborators)
    (__init__ MovementsModelOutputType.pose_changes TrajectoryModelOutputType.loc_rot)
    (TensorInput sample_changes) None None = (Raise TypeError, []).
Proof.
  destruct (X4_project_pose_needs_on_batch_start (H := sample_collaborators)
              (__init__ MovementsModelOutputType.pose_changes
                 TrajectoryModelOutputType.loc_rot)
              (TensorInput sample_changes) None None eq_refl) as [e He].
  rewrite He. vm_compute in He. injection He as <-. reflexivity.
Defined.

Lemma select1_is_tensor n l rest t i s :
  is_tensor (n :: l :: rest) t → select1 t i = Ok s → is_tensor (n :: rest) s.
Proof.
  intros [Hs Hd]. unfold select1. rewrite Hs.
  destruct (decide (i < l)) as [Hi|]; [|done]. intros [= <-].
  split; [done|]. simpl in *.
  rewrite (length_concat_uniform (numel rest)).
  - by rewrite length_fmap, length_rows.
  - apply Forall_fmap. eapply Forall_impl; [apply (rows_Forall_length n (l * numel rest)); lia|].
    intros b Hb. simpl.
    destruct (lookup_lt_is_Some_2 (rows l (numel rest) b) i) as [r Hr];
      [by rewrite length_rows|].
    rewrite Hr. simpl.
    by eapply (Forall_lookup_1 _ _ _ _ (rows_Forall_length l (numel rest) b Hb)).
Qed.

Section Projections.
Context `{Collaborators}.

Local Abbreviation projection_body self absolute_loc world_loc world_rot :=
  (λ i projections,
     pp ← match __pose_projection self with
          | Some pp => ret pp
          | None => raise AttributeError
          end;
     a ← lift (select1 absolute_loc i);
     wl ← lift (select1 world_loc i);
     wr ← lift (select1 world_rot i);
     p ← call (ProjectionForward pp a wl wr) (P3dPoseProjection_forward pp a wl wr);
     lift (assign1 projections i p)).

Lemma projection_loop_Ok self al wl wr pp n l rest :
  projection_contract →
  __pose_projection self = Some pp →
  is_tensor (n :: l :: rest) al →
  (∀ i, i < l → ∃ w, select1 wl i = Ok w) →
  (∀ i, i < l → ∃ r, select1 wr i = Ok r) →
  ∀ m k proj,
    k + m ≤ l → is_tensor (n :: l :: rest) proj →
    ∃ proj' tr,
      for_each (seq k m) (projection_body self al wl wr) proj = (Ok proj', tr) ∧
      length tr = m ∧
      is_tensor (n :: l :: rest) proj' ∧
      (∀ j, j < k ∨ k + m ≤ j → select1 proj' j = select1 proj j) ∧
      (∀ d, d < m →
         ∃ a w r, select1 al (k + d) = Ok a ∧ select1 wl (k + d) = Ok w ∧
                  select1 wr (k + d) = Ok r ∧
                  select1 proj' (k + d) = Ok (P3dPoseProjection_forward pp a w r)).
Proof.
  intros Hpc Hpp Hal Hwl Hwr. induction m as [|m IH]; intros k proj Hk Hproj.
  - exists proj, []. split; [done|]. split; [done|]. split; [done|]. split; [done|].
    intros d Hd. lia.
  - destruct (select1_Ok n l rest al k (proj1 Hal)) as (a & Ha & Has); [lia|].
    destruct (Hwl k) as [w Hw]; [lia|]. destruct (Hwr k) as [r Hr]; [lia|].
    pose proof (select1_is_tensor n l rest al k a Hal Ha) as Hat.
    pose proof (Hpc pp a w r (n :: rest) Hat) as Hpt.
    destruct (assign1_Ok n l rest proj k (P3dPoseProjection_forward pp a w r))
      as [proj1 Hproj1]; [apply Hproj|apply Hpt|lia|].
    destruct (IH (S k) proj1) as (proj' & tr & Hrun & Htr & Hproj' & Hout & Hin); [lia| |].
    { by eapply assign1_is_tensor. }
    exists proj', (ProjectionForward pp a w r :: tr).
    split; [|split; [by rewrite length_cons, Htr|split; [done|split]]].
    + change (for_each (seq k (S m)) ?f ?s) with (f k s ≫= for_each (seq (S k) m) f).
      set (F := for_each (seq (S k) m) (projection_body self al wl wr)) in *.
      cbv beta. rewrite Hpp, bind_ret, Ha, bind_lift_Ok, Hw, bind_lift_Ok, Hr, bind_lift_Ok.
      rewrite bind_call, Hproj1. unfold lift. cbn [fst snd]. by rewrite bind_Ok, Hrun.
    + intros j Hj. rewrite Hout by lia.
      eapply select1_assign1_ne; [apply Hproj|apply Hpt| |done]. lia.
    + intros [|d] Hd.
      * rewrite Nat.add_0_r. exists a, w, r. split; [done|]. split; [done|]. split; [done|].
        rewrite Hout by lia. eapply select1_assign1; [apply Hproj|apply Hpt|done].
      * replace (k + S d) with (S k + d) by lia. apply Hin. lia.
Qed.

Lemma project_pose_frames
    self x wl wr al ar tra wloc wrot trw pp n l rest :
  projection_contract →
  check_pose_inputs self x = (Ok tt, []) →
  __calculate_abs self x = (Ok (al, ar), tra) →
  is_tensor (n :: l :: rest) al →
  __calculate_world self al wl wr = (Ok (wloc, wrot), trw) →
  (∀ i, i < l → ∃ w, select1 wloc i = Ok w) →
  (∀ i, i < l → ∃ r, select1 wrot i = Ok r) →
  __pose_projection self = Some pp →
  ∃ proj tr,
    project_pose self x wl wr = (Ok (proj, al, ar, wloc, wrot), tra ++ trw ++ tr) ∧
    length tr = l ∧
    is_tensor (n :: l :: rest) proj ∧
    ∀ i, i < l →
      ∃ a w r, select1 al i = Ok a ∧ select1 wloc i = Ok w ∧ select1 wrot i = Ok r ∧
               select1 proj i = Ok (P3dPoseProjection_forward pp a w r).
Proof.
  intros Hpc Hcheck Habs Hal Hworld Hwl Hwr Hpp.
  destruct (projection_loop_Ok self al wloc wrot pp n l rest Hpc Hpp Hal Hwl Hwr l 0
              (empty_like uninit al))
    as (proj & tr & Hrun & Htr & Hproj & _ & Hframes); [lia| |].
  { unfold empty_like. rewrite (proj1 Hal). apply empty_is_tensor. }
  exists proj, tr. split; [|split; [done|split; [done|]]].
  - unfold project_pose. rewrite Hcheck. change (Ok tt, []) with (@ret unit tt).
    rewrite bind_ret. unfold project_frames.
    rewrite Habs, bind_Ok. cbv beta iota. rewrite Hworld. cbn [fst snd].
    rewrite bind_Ok. cbv beta iota. cbn [fst snd].
    assert (list_get (shape al) 1 = ret l) as -> by (by rewrite (proj1 Hal)).
    rewrite bind_ret, Hrun, bind_Ok. cbn [fst snd ret]. by rewrite app_nil_r.
  - intros i Hi. apply (Hframes i Hi).
Qed.

(** X5. When the checks pass, the composition returns absolute locations
    of shape [(N, L, ...)], the world placement has at least [L] frames
    and the camera is set, [project_pose] returns; the projections have
    the shape of the absolute locations, and frame [i] of them is the
    camera's image of frame [i] of the absolute locations under frame
    [i] of the world placement.  Nothing of the uninitialised storage
    the projections start from is left. *)
Theorem X5_project_pose_projects_frame_by_frame
    self x wl wr al ar tra wloc wrot trw pp n l rest :
  projection_contract →
  check_pose_inputs self x = (Ok tt, []) →
  __calculate_abs self x = (Ok (al, ar), tra) →
  is_tensor (n :: l :: rest) al →
  __calculate_world self al wl wr = (Ok (wloc, wrot), trw) →
  (∀ i, i < l → ∃ w, select1 wloc i = Ok w) →
  (∀ i, i < l → ∃ r, select1 wrot i = Ok r) →
  __pose_projection self = Some pp →
  ∃ proj tr,
    project_pose self x wl wr = (Ok (proj, al, ar, wloc, wrot), tra ++ trw ++ tr) ∧
    is_tensor (n :: l :: rest) proj ∧
    ∀ i, i < l →
      ∃ a w r, select1 al i = Ok a ∧ select1 wloc i = Ok w ∧ select1 wrot i = Ok r ∧
               select1 proj i = Ok (P3dPoseProjection_forward pp a w r).
Proof.
  intros Hpc Hcheck Habs Hal Hworld Hwl Hwr Hpp.
  destruct (project_pose_frames self x wl wr al ar tra wloc wrot trw pp n l rest
              Hpc Hcheck Habs Hal Hworld Hwl Hwr Hpp)
    as (proj & tr & Hrun & _ & Hproj & Hframes).
  by exists proj, tr.
Qed.

End Projections.

Lemma sample_projection_contract : projection_contract (H := sample_collaborators).
Proof. by intros pp a w r s Ha. Qed.

(** The second frame of the projections of the small instance is the
    second frame of its absolute locations, which the camera of the
    instance returns as given. *)
Lemma X5_project_pose_projects_frame_by_frame_witness :
  ∃ proj al ar wloc wrot tr,
    project_pose (H := sample_collaborators)
      (sample_module MovementsModelOutputType.pose_changes TrajectoryModelOutputType.loc_rot)
      (TensorInput sample_changes) None None
    = (Ok (proj, al, ar, wloc, wrot), tr) ∧
    select1 proj 1 = Ok (mkTensor [1; 1; 3] [12; 12; 12]%float).
Proof.
  edestruct (X5_project_pose_projects_frame_by_frame (H := sample_collaborators)
               (sample_module MovementsModelOutputType.pose_changes
                  TrajectoryModelOutputType.loc_rot)
               (TensorInput sample_changes) None None)
    as (proj & tr & Hrun & _ & Hframes).
  - exact sample_projection_contract.
  - reflexivity.
  - vm_compute. reflexivity.
  - split; reflexivity.
  - vm_compute. reflexivity.
  - intros [|[|i]] Hi; [eexists; reflexivity..|lia].
  - intros [|[|i]] Hi; [eexists; reflexivity..|lia].
  - reflexivity.
  - destruct (Hframes 1) as (a & w & r & Ha & _ & _ & Hp); [lia|].
    vm_compute in Ha. injection Ha as <-.
    eexists proj, _, _, _, _, _. split; [exact Hrun|exact Hp].
Defined.

(** ** The reference tensors *)

Lemma stack_Ok s ts :
  ts ≠ [] → Forall (λ t, shape t = s) ts →
  stack ts = Ok (mkTensor (length ts :: s) (concat (data <$> ts))).
Proof.
  intros Hne Hts. destruct ts as [|t ts]; [done|]. unfold stack.
  pose proof (Forall_inv Hts) as Ht. rewrite Ht. by rewrite decide_True.
Qed.

Lemma stack_is_tensor s ts :
  Forall (is_tensor s) ts → is_tensor (length ts :: s) (mkTensor (length ts :: s) (concat (data <$> ts))).
Proof.
  intros Hts. split; [done|]. simpl.
  rewrite (length_concat_uniform (numel s)); [by rewrite length_fmap|].
  apply Forall_fmap. eapply Forall_impl; [exact Hts|]. by intros t [_ Ht].
Qed.

Lemma select0_stack s ts i t :
  Forall (is_tensor s) ts → ts !! i = Some t →
  select0 (mkTensor (length ts :: s) (concat (data <$> ts))) i = Ok t.
Proof.
  intros Hts Hi. unfold select0. simpl.
  rewrite decide_True by (by eapply lookup_lt_Some). f_equal.
  pose proof (Forall_lookup_1 _ _ _ _ Hts Hi) as [Hs Hd].
  destruct t as [st dt]. simpl in *. subst st. f_equal.
  revert i Hi. induction Hts as [|u ts [_ Hu] _ IH]; intros i Hi; [done|].
  destruct i as [|i]; simpl in *.
  - injection Hi as ->. simpl. rewrite drop_0. by rewrite <-Hd, take_app_length.
  - rewrite drop_app_add' by done. by apply IH.
Qed.

Lemma stack_differing ts t u :
  t ∈ ts → u ∈ ts → shape t ≠ shape u → ∃ msg, stack ts = Raise (RuntimeError msg).
Proof.
  intros Ht Hu Hne. destruct ts as [|t0 ts]; [by apply elem_of_nil in Ht|].
  unfold stack. destruct (decide _) as [Hall|]; [|eauto].
  rewrite Forall_forall in Hall. destruct Hne. by rewrite (Hall t Ht), (Hall u Hu).
Qed.

Section ReferenceTensors.
Context `{Collaborators}.

(** X6. [get_reference_tensors] stacks the reference tensors of the
    pedestrians of the batch in their order: with locations of one shape
    [sl] and rotations of one shape [sr], the results have shapes
    [(N, *sl)] and [(N, *sr)] for [N] pedestrians, and entry [i] of each
    is the tensor of pedestrian [i].  No pedestrian gives [ValueError];
    two pedestrians whose location tensors differ in shape give
    [RuntimeError].  No collaborator is called. *)
Theorem X6_get_reference_tensors_stacks_pedestrians self peds :
  __pedestrians self = Some peds →
  (peds = [] → get_reference_tensors self = (Raise ValueError, [])) ∧
  (∀ sl sr,
     peds ≠ [] →
     Forall (λ p, is_tensor sl (tensors p).1 ∧ is_tensor sr (tensors p).2) peds →
     ∃ loc rot,
       get_reference_tensors self = (Ok (loc, rot), []) ∧
       is_tensor (length peds :: sl) loc ∧ is_tensor (length peds :: sr) rot ∧
       ∀ i p, peds !! i = Some p →
         select0 loc i = Ok (tensors p).1 ∧ select0 rot i = Ok (tensors p).2) ∧
  (∀ p q, p ∈ peds → q ∈ peds → shape (tensors p).1 ≠ shape (tensors q).1 →
     ∃ msg, get_reference_tensors self = (Raise (RuntimeError msg), [])).
Proof.
  intros Hpeds. unfold get_reference_tensors. rewrite Hpeds. split; [|split].
  - by intros ->.
  - intros sl sr Hne Hts.
    assert (Forall (is_tensor sl) ((λ p, (tensors p).1) <$> peds)) as Hl.
    { apply Forall_fmap. eapply Forall_impl; [exact Hts|]. by intros p [? _]. }
    assert (Forall (is_tensor sr) ((λ p, (tensors p).2) <$> peds)) as Hr.
    { apply Forall_fmap. eapply Forall_impl; [exact Hts|]. by intros p [_ ?]. }
    pose proof (stack_is_tensor _ _ Hl) as Hlt. pose proof (stack_is_tensor _ _ Hr) as Hrt.
    rewrite length_fmap in Hlt, Hrt.
    eexists _, _. split; [|split; [exact Hlt|split; [exact Hrt|]]].
    + destruct peds as [|p0 peds']; [done|].
      rewrite (stack_Ok sl ((λ p, (tensors p).1) <$> p0 :: peds')), bind_lift_Ok.
      * rewrite (stack_Ok sr ((λ p, (tensors p).2) <$> p0 :: peds')), bind_lift_Ok.
        -- by rewrite !length_fmap.
        -- done.
        -- eapply Forall_impl; [exact Hr|]. by intros t [? _].
      * done.
      * eapply Forall_impl; [exact Hl|]. by intros t [? _].
    + intros i p Hi. split.
      * rewrite <-(length_fmap (λ p, (tensors p).1) peds). apply select0_stack; [done|].
        by rewrite list_lookup_fmap, Hi.
      * rewrite <-(length_fmap (λ p, (tensors p).2) peds). apply select0_stack; [done|].
        by rewrite list_lookup_fmap, Hi.
  - intros p q Hp Hq Hne.
    destruct (stack_differing ((λ p, (tensors p).1) <$> peds) (tensors p).1 (tensors q).1)
      as [msg Hmsg];
      [by apply (list_elem_of_fmap_2 (λ p, (tensors p).1))..|done|].
    exists msg. destruct peds as [|p0 peds']; [by apply elem_of_nil in Hp|].
    by rewrite Hmsg.
Qed.

End ReferenceTensors.

Lemma X6_get_reference_tensors_witness :
  ∃ loc rot,
    get_reference_tensors (H := sample_collaborators)
      (sample_module MovementsModelOutputType.relative_rot TrajectoryModelOutputType.loc_rot)
    = (Ok (loc, rot), []) ∧
    select0 loc 0 = Ok (mkTensor [1; 3] [0; 1; 0]%float).
Proof.
  destruct (X6_get_reference_tensors_stacks_pedestrians (H := sample_collaborators)
              (sample_module MovementsModelOutputType.relative_rot
                 TrajectoryModelOutputType.loc_rot)
              [mkControlledPedestrian "adult" "female" "cpu" None] eq_refl)
    as (_ & Hstack & _).
  destruct (Hstack [1; 3] [1; 3; 3]) as (loc & rot & Hrun & _ & _ & Hsel).
  - done.
  - repeat constructor.
  - exists loc, rot. split; [exact Hrun|].
    apply (Hsel 0 (mkControlledPedestrian "adult" "female" "cpu" None) eq_refl).
Defined.

Lemma fmap_id_Forall {A} (f : A → A) (P : A → Prop) l :
  (∀ x, P x → f x = x) → Forall P l → f <$> l = l.
Proof.
  intros Hf. induction 1 as [|x l Hx _ IH]; [done|].
  rewrite fmap_cons. by rewrite (Hf x Hx), IH.
Qed.

Lemma tile_ones s d : length d = numel s → tile s (replicate (length s) 1) d = d.
Proof.
  revert d; induction s as [|n s IH]; intros d Hd; [done|].
  simpl in *. rewrite app_nil_r.
  rewrite (fmap_id_Forall _ (λ r, length r = numel s)).
  - by apply concat_rows.
  - exact IH.
  - by apply rows_Forall_length.
Qed.

Section ReferenceLocations.
Context `{Collaborators}.

(** X7. The relative-rotation composition brings the reference locations
    to the batch size of its input by whole copies only.  With stacked
    reference locations of shape [(n, b, c)], [n >= 1], and an input of
    [bs] clips, the result is [bs div n] copies of them one after the
    other, of shape [((bs div n) * n, b, c)]: the reference locations
    themselves when [bs = n], an empty tensor when [bs < n], and fewer
    than [bs] rows whenever [n] does not divide [bs]. *)
Theorem X7_reference_locations_whole_copies self bs loc rot n b c :
  get_reference_tensors self = (Ok (loc, rot), []) →
  is_tensor [n; b; c] loc →
  1 ≤ n →
  reference_locations self bs
  = (Ok (mkTensor [n * (bs `div` n); b; c] (concat (replicate (bs `div` n) (data loc)))), []) ∧
  (bs = n → reference_locations self bs = (Ok loc, [])) ∧
  (bs < n → reference_locations self bs = (Ok (mkTensor [0; b; c] []), [])) ∧
  (bs `mod` n ≠ 0 → n * (bs `div` n) < bs).
Proof.
  intros Hrun [Hs Hd] Hn.
  assert (reference_locations self bs
          = (Ok (mkTensor [n * (bs `div` n); b; c]
                   (concat (replicate (bs `div` n) (data loc)))), [])) as Heq.
  { unfold reference_locations. rewrite Hrun, bind_Ok. cbv beta iota. cbn [fst snd].
    rewrite Hs. change (shape_3d [n; b; c]) with [n; b; c].
    unfold reshape. rewrite Hs, decide_True by done. rewrite bind_lift_Ok.
    change (list_get [n; b; c] 0) with (@ret nat n). rewrite bind_ret.
    rewrite decide_False by lia. rewrite bind_ret.
    unfold repeat, ndim. cbn [shape data length]. rewrite decide_False by lia.
    cbn [Nat.sub replicate app zip_with]. rewrite !Nat.mul_1_r.
    change (tile [n; b; c] [bs `div` n; 1; 1] (data loc))
      with (concat (replicate (bs `div` n)
                      (concat (tile [b; c] (replicate (length [b; c]) 1)
                                 <$> rows n (numel [b; c]) (data loc))))).
    rewrite (fmap_id_Forall _ (λ r, length r = numel [b; c])).
    - rewrite concat_rows by exact Hd. done.
    - intros r Hr. by apply tile_ones.
    - by apply rows_Forall_length. }
  split; [exact Heq|]. split; [|split].
  - intros ->. rewrite Heq, Nat.div_same by lia. rewrite Nat.mul_1_r. simpl.
    rewrite app_nil_r. destruct loc as [sl dl]. simpl in *. by subst sl.
  - intros Hlt. rewrite Heq, Nat.div_small by done. by rewrite Nat.mul_0_r.
  - intros Hmod. pose proof (Nat.div_mod_eq bs n). lia.
Qed.

End ReferenceLocations.

Lemma X7_reference_locations_witness :
  reference_locations (H := sample_collaborators)
    (sample_module MovementsModelOutputType.relative_rot TrajectoryModelOutputType.loc_rot) 3
  = (Ok (mkTensor [3; 1; 3] [0; 1; 0; 0; 1; 0; 0; 1; 0]%float), []).
Proof.
  destruct (X7_reference_locations_whole_copies (H := sample_collaborators)
              (sample_module MovementsModelOutputType.relative_rot
                 TrajectoryModelOutputType.loc_rot) 3
              (mkTensor [1; 1; 3] [0; 1; 0]%float)
              (mkTensor [1; 1; 3; 3] [1; 0; 0; 0; 1; 0; 0; 0; 1]%float) 1 1 3)
    as [Heq _].
  - vm_compute. reflexivity.
  - split; reflexivity.
  - lia.
  - rewrite Heq. reflexivity.
Defined.

(** ** The targets of a mixed dataset *)

Section GetitemTargets.
Variable array_item : MetaValue → Numpy.dtype → Result MetaValue.

Local Abbreviation targets_body item :=
  (λ '(key, (template_dtype, template_shape)) (common_targets : gmap string Tensor),
     match targets item !! key with
     | Some v => ret (<[key := v]> common_targets)
     | None => v ← lift (full_nan template_dtype template_shape);
               ret (<[key := v]> common_targets)
     end).

Lemma targets_loop item tpl :
  (∀ key d s, (key, (d, s)) ∈ tpl → targets item !! key = None → d = Numpy.float64) →
  ∀ acc,
    ∃ ct,
      for_each tpl (targets_body item) acc = (Ok ct, []) ∧
      (∀ key, key ∉ tpl.*1 → ct !! key = acc !! key) ∧
      (∀ key, key ∈ tpl.*1 → is_Some (ct !! key)) ∧
      (∀ key v, key ∈ tpl.*1 → targets item !! key = Some v → ct !! key = Some v) ∧
      (NoDup tpl.*1 →
       ∀ key d s, (key, (d, s)) ∈ tpl → targets item !! key = None →
         ct !! key = Some (mkTensor s (replicate (numel s) nan))).
Proof.
  induction tpl as [|[k [d s]] tpl IH]; intros Hfloat acc.
  - exists acc. split; [done|]. split; [done|]. split.
    { intros key Hkey. by apply elem_of_nil in Hkey. }
    split; [intros key v Hkey; by apply elem_of_nil in Hkey|].
    intros _ key d s Hkey. by apply elem_of_nil in Hkey.
  - assert (∃ v, targets_body item (k, (d, s)) acc = ret (<[k := v]> acc) ∧
                 (∀ v0, targets item !! k = Some v0 → v = v0) ∧
                 (targets item !! k = None → v = mkTensor s (replicate (numel s) nan)))
      as (v & Hbody & Hsome & Hnone).
    { cbv beta iota. destruct (targets item !! k) as [v0|] eqn:Hk.
      - exists v0. split; [done|]. split; [by intros ? [= <-]|done].
      - rewrite (Hfloat k d s) by (done || constructor). unfold full_nan.
        eexists. split; [by rewrite bind_lift_Ok|]. done. }
    assert (∀ key d' s', (key, (d', s')) ∈ tpl → targets item !! key = None →
                         d' = Numpy.float64) as Hfloat'.
    { intros key d' s' Hin. apply (Hfloat key d' s'). by apply elem_of_cons; right. }
    destruct (IH Hfloat' (<[k := v]> acc))
      as (ct & Hrun & Hout & Hdom & Hkeep & Hfill).
    exists ct. split; [|split; [|split; [|split]]].
    + change (for_each ((k, (d, s)) :: tpl) ?f ?a) with (f (k, (d, s)) a ≫= for_each tpl f).
      cbv beta iota in Hbody. cbv beta iota. by rewrite Hbody, bind_ret.
    + intros key Hkey. rewrite fmap_cons, not_elem_of_cons in Hkey.
      destruct Hkey as [Hne Hkey]. rewrite (Hout key Hkey). by rewrite lookup_insert_ne.
    + intros key Hkey. destruct (decide (key ∈ tpl.*1)) as [Hin|Hin]; [by apply Hdom|].
      rewrite fmap_cons in Hkey. apply elem_of_cons in Hkey as [->|Hkey]; [|done].
      rewrite (Hout _ Hin). simpl. rewrite lookup_insert_eq. eauto.
    + intros key v0 Hkey Hv0. destruct (decide (key ∈ tpl.*1)) as [Hin|Hin]; [by apply Hkeep|].
      rewrite fmap_cons in Hkey. apply elem_of_cons in Hkey as [->|Hkey]; [|done].
      rewrite (Hout _ Hin). simpl. rewrite lookup_insert_eq. f_equal. by apply Hsome.
    + intros Hnd key d' s' Hkey Hmiss. rewrite fmap_cons in Hnd.
      apply NoDup_cons in Hnd as [Hk Hnd].
      apply elem_of_cons in Hkey as [[= -> -> ->]|Hkey].
      * rewrite (Hout k Hk), lookup_insert_eq. f_equal. by apply Hnone.
      * by apply (Hfill Hnd key d' s').
Qed.

(** X8. The targets [MixedDataset.__getitem__] returns follow the targets
    template and nothing else.  For an item whose missing template
    targets are all of floats, the loop over the template returns a
    dictionary with exactly the keys of the template: a target the item
    has is kept as it is, with no check of its shape or type against the
    template; a target the item lacks is a tensor of NaN of the template
    shape; a target of the item that the template does not list is
    dropped.  The projection is handed through.  Without a metadata
    template (skip_metadata) the metadata returned is empty, whatever the
    item carries. *)
Theorem X8_getitem_targets_follow_template (self : MixedDataset) index item :
  items self !! index = Some item →
  NoDup (_targets_template self).*1 →
  (∀ key d s, (key, (d, s)) ∈ _targets_template self → targets item !! key = None →
     d = Numpy.float64) →
  ∃ ct,
    (∀ key, is_Some (ct !! key) ↔ key ∈ (_targets_template self).*1) ∧
    (∀ key v, key ∈ (_targets_template self).*1 → targets item !! key = Some v →
       ct !! key = Some v) ∧
    (∀ key d s, (key, (d, s)) ∈ _targets_template self → targets item !! key = None →
       ct !! key = Some (mkTensor s (replicate (numel s) nan))) ∧
    (_meta_template self = None →
     __getitem__ array_item self index = (Ok (projection_2d item, ct, ∅), [])) ∧
    (∀ p ct' cm tr, __getitem__ array_item self index = (Ok (p, ct', cm), tr) →
       p = projection_2d item ∧ ct' = ct).
Proof.
  intros Hitem Hnd Hfloat.
  destruct (targets_loop item (_targets_template self) Hfloat ∅)
    as (ct & Hrun & Hout & Hdom & Hkeep & Hfill).
  exists ct. split; [|split; [exact Hkeep|split; [by apply Hfill|split]]].
  - intros key. split; [|by apply Hdom].
    intros Hsome. destruct (decide (key ∈ (_targets_template self).*1)) as [|Hn]; [done|].
    rewrite (Hout key Hn), lookup_empty in Hsome. by destruct Hsome.
  - intros Hmeta. unfold __getitem__.
    rewrite (list_get_Some _ _ _ Hitem), bind_ret, Hrun, bind_Ok, Hmeta, bind_ret. done.
  - intros p ct' cm tr. unfold __getitem__.
    rewrite (list_get_Some _ _ _ Hitem), bind_ret, Hrun, bind_Ok. cbn [fst snd app].
    intros Hget.
    revert Hget.
    match goal with |- context [?m ≫= _] => destruct m as [[cm'|e] tr'] end.
    + rewrite bind_Ok. cbn [fst snd ret]. by intros [= <- <- _ _].
    + done.
Qed.

End GetitemTargets.

Lemma X8_getitem_targets_witness :
  ∃ ct,
    __getitem__ keep_value sample_targets_dataset 0
    = (Ok (zeros [1; 2; 3], ct, ∅), []) ∧
    ct !! "pose_changes" = Some (mkTensor [3] [1; 2; 3]%float) ∧
    ct !! "world_loc_changes" = Some (mkTensor [2] [nan; nan]) ∧
    ct !! "frame" = None.
Proof.
  destruct (X8_getitem_targets_follow_template keep_value sample_targets_dataset 0
              sample_targets_item eq_refl)
    as (ct & Hdom & Hkeep & Hfill & Hrun & _).
  - apply (bool_decide_unpack _). vm_compute. reflexivity.
  - intros key d s Hin Hmiss.
    apply elem_of_cons in Hin as [[= -> -> ->]|Hin]; [vm_compute in Hmiss; discriminate|].
    apply elem_of_cons in Hin as [[= -> -> ->]|Hin]; [reflexivity|].
    by apply elem_of_nil in Hin.
  - exists ct. split; [by apply Hrun|]. split; [|split].
    + apply Hkeep; [|reflexivity]. apply (bool_decide_unpack _). vm_compute. reflexivity.
    + apply (Hfill "world_loc_changes" Numpy.float64 [2]); [|reflexivity].
      apply elem_of_cons; right. apply elem_of_cons; by left.
    + destruct (ct !! "frame") as [v|] eqn:Hv; [|reflexivity].
      assert (is_Some (ct !! "frame")) as Hsome by (rewrite Hv; eauto).
      apply Hdom in Hsome. revert Hsome. apply (bool_decide_unpack _). vm_compute. reflexivity.
Defined.

(** ** Drawing the projection *)

Lemma bind_raise {A B} e (f : A → M B) : raise e ≫= f = raise e.
Proof. done. Qed.

Lemma list_get_None {V} (l : list V) i : l !! i = None → list_get l i = raise IndexError.
Proof. intros Hi. unfold list_get. by rewrite Hi. Qed.

Lemma colors_Ok keys :
  Forall (λ k, is_Some (POSE_COLORS !! k)) keys →
  ∃ cs,
    comprehension keys (dict_get POSE_COLORS) = (Ok cs, []) ∧
    length cs = length keys ∧
    ∀ j k, keys !! j = Some k → cs !! j = POSE_COLORS !! k.
Proof.
  induction 1 as [|k keys [c Hc] _ (cs & Hrun & Hlen & Hcs)].
  - exists []. split; [done|]. split; [done|]. by intros j k Hj.
  - exists (c :: cs). split; [|split].
    + change (comprehension (k :: keys) ?f)
        with (y ← f k; ys ← comprehension keys f; ret (y :: ys)).
      by rewrite (dict_get_Some _ _ _ Hc), bind_ret, Hrun, bind_Ok.
    + simpl. by rewrite Hlen.
    + intros [|j] k' Hj; simpl in Hj.
      * injection Hj as <-. by rewrite Hc.
      * by apply Hcs.
Qed.

Lemma colors_missing known k rest :
  Forall (λ k, is_Some (POSE_COLORS !! k)) known →
  POSE_COLORS !! k = None →
  comprehension (known ++ k :: rest) (dict_get POSE_COLORS) = (Raise (KeyError k), []).
Proof.
  intros Hknown Hk. induction Hknown as [|k0 known [c Hc] _ IH].
  - change (comprehension ([] ++ k :: rest) ?f)
      with (y ← f k; ys ← comprehension rest f; ret (y :: ys)).
    by rewrite (dict_get_None _ _ Hk).
  - change (comprehension ((k0 :: known) ++ k :: rest) ?f)
      with (y ← f k0; ys ← comprehension (known ++ k :: rest) f; ret (y :: ys)).
    by rewrite (dict_get_Some _ _ _ Hc), bind_ret, IH.
Qed.

Section Ellipses.
Variables (end_ : nat) (color_values : list (list Z)).

Local Abbreviation ellipse_body :=
  (λ '(idx, point) (shapes : list Shape),
     color ← list_get color_values (idx + 1);
     ret (shapes ++ [Ellipse (around point) (take end_ color)])).

Lemma ellipses_Ok points :
  ∀ s shapes,
    s + length points < length color_values →
    ∃ drawn,
      for_each (zip (seq s (length points)) points) ellipse_body shapes
      = (Ok (shapes ++ drawn), []) ∧
      length drawn = length points ∧
      ∀ j p, points !! j = Some p →
        ∃ c, color_values !! (s + j + 1) = Some c ∧
             drawn !! j = Some (Ellipse (around p) (take end_ c)).
Proof.
  induction points as [|p points IH]; intros s shapes Hlen.
  - exists []. split; [by rewrite app_nil_r|]. split; [done|]. by intros j p Hj.
  - simpl in Hlen.
    destruct (lookup_lt_is_Some_2 color_values (s + 1)) as [c Hc]; [lia|].
    destruct (IH (S s) (shapes ++ [Ellipse (around p) (take end_ c)]))
      as (drawn & Hrun & Hdrawn & Hshapes); [lia|].
    exists (Ellipse (around p) (take end_ c) :: drawn). split; [|split].
    + change (for_each (zip (seq s (length (p :: points))) (p :: points)) ?f ?a)
        with (f (s, p) a ≫= for_each (zip (seq (S s) (length points)) points) f).
      cbv beta iota. rewrite (list_get_Some _ _ _ Hc), bind_ret, bind_ret, Hrun.
      by rewrite <-app_assoc.
    + simpl. by rewrite Hdrawn.
    + intros [|j] p' Hj; simpl in Hj.
      * injection Hj as <-. exists c. by rewrite Nat.add_0_r.
      * destruct (Hshapes j p' Hj) as (c' & Hc' & Hd). exists c'.
        replace (s + S j + 1) with (S s + j + 1) by lia. done.
Qed.

Lemma ellipses_short points :
  ∀ s shapes,
    points ≠ [] →
    length color_values ≤ s + length points →
    for_each (zip (seq s (length points)) points) ellipse_body shapes
    = (Raise IndexError, []).
Proof.
  induction points as [|p points IH]; intros s shapes Hne Hlen; [done|].
  change (for_each (zip (seq s (length (p :: points))) (p :: points)) ?f ?a)
    with (f (s, p) a ≫= for_each (zip (seq (S s) (length points)) points) f).
  cbv beta iota. simpl in Hlen.
  destruct (color_values !! (s + 1)) as [c|] eqn:Hc.
  - rewrite (list_get_Some _ _ _ Hc), bind_ret, bind_ret. apply IH.
    + intros ->. apply lookup_lt_Some in Hc. simpl in Hlen. lia.
    + lia.
  - by rewrite (list_get_None _ _ Hc).
Qed.

End Ellipses.

Section Drawing.
Variable Image_fromarray : list nat → bool → Result unit.


End Drawing.


(** ** The whole of [forward] *)

Section Forward.
Context `{Collaborators}.

Lemma pose_changes_shapes self x n l b rest pose peds ref_loc ref_rot :
  forward_contract →
  shape x = n :: l :: b :: rest →
  __pedestrians self = Some (pose :: peds) →
  get_reference_tensors self = (Ok (ref_loc, ref_rot), []) →
  ∃ loc rot tr,
    _calculate_abs_from_pose_changes self (TensorInput x) = (Ok (loc, Some rot), tr) ∧
    length tr = l ∧
    is_tensor [n; l; b; 3] loc ∧ is_tensor [n; l; b; 3; 3] rot.
Proof.
  intros Hfw Hx Hpeds Href.
  pose proof (length_unbind1 x n l (b :: rest) Hx) as Hlen.
  destruct (pose_changes_loop x pose ref_loc n l b rest Hfw Hx (unbind1 x) 0
              (empty uninit [n; l; b; 3]) (empty uninit [n; l; b; 3; 3]) ref_rot)
    as (loc & rot & Hrun & Hloc & Hrot & _).
  { intros d c Hd. by apply select1_unbind1. }
  { lia. }
  { apply empty_is_tensor. }
  { apply empty_is_tensor. }
  eexists loc, rot, _. split; [|split; [|done]].
  - unfold _calculate_abs_from_pose_changes.
    change (input_tensor (TensorInput x)) with (ret x). rewrite bind_ret.
    rewrite Hx. change (unpack3 (n :: l :: b :: rest)) with (ret (n, l, b)).
    rewrite bind_ret. cbv beta iota.
    rewrite Href, bind_Ok. cbv beta iota.
    rewrite (first_pose_cons self pose peds Hpeds), bind_ret.
    rewrite Hlen in Hrun. rewrite Hrun, bind_Ok. cbn [fst snd ret app].
    by rewrite app_nil_r.
  - by rewrite length_imap.
Qed.

Lemma world_from_loc_rot_frames self al n l rest wl wr :
  shape al = n :: l :: rest →
  (∀ t, wl = Some t → ∃ n' l' rest', shape t = n' :: l' :: rest' ∧ l ≤ l') →
  (∀ t, wr = Some t → ∃ n' l' rest', shape t = n' :: l' :: rest' ∧ l ≤ l') →
  ∃ wloc wrot,
    _calculate_world_from_loc_rot self al wl wr = (Ok (wloc, wrot), []) ∧
    (∀ i, i < l → ∃ w, select1 wloc i = Ok w) ∧
    (∀ i, i < l → ∃ r, select1 wrot i = Ok r) ∧
    (wl = None → wloc = zeros [n; l; 3]) ∧ (∀ t, wl = Some t → wloc = t) ∧
    (wr = None → shape wrot = [n; l; 3; 3]) ∧ (∀ t, wr = Some t → wrot = t).
Proof.
  intros Hal Hwl Hwr.
  assert (∃ wrot,
            (match wr with
             | None => e ← lift (reshape (eye 3) [1; 1; 3; 3]);
                       lift (repeat e [n; l; 1; 1])
             | Some t => ret t
             end : M Tensor) = (Ok wrot, []) ∧
            (∀ i, i < l → ∃ r, select1 wrot i = Ok r) ∧
            (wr = None → shape wrot = [n; l; 3; 3]) ∧ (∀ t, wr = Some t → wrot = t))
    as (wrot & Hrot & Hselr & Hnone & Hsome).
  { destruct wr as [t|].
    - exists t. split; [done|]. split; [|split; [done|by intros ? [= ->]]].
      destruct (Hwr t eq_refl) as (n' & l' & rest' & Ht & Hl). intros i Hi.
      destruct (select1_Ok n' l' rest' t i Ht) as (r & Hr & _); [lia|]. eauto.
    - pose proof (eye_repeat n l) as Heye.
      destruct (reshape (eye 3) [1; 1; 3; 3]) as [e|] eqn:He; [|done].
      eexists. split; [by rewrite bind_lift_Ok, Heye|]. split; [|done].
      intros i Hi.
      destruct (select1_Ok n l [3; 3] (mkTensor [n; l; 3; 3]
                  (concat (replicate n (concat (replicate l (data (eye 3))))))) i eq_refl Hi)
        as (r & Hr & _). eauto. }
  eexists _, wrot. split; [|split; [|split; [exact Hselr|split; [|split; [|done]]]]].
  - unfold _calculate_world_from_loc_rot. rewrite Hal.
    change (unpack2 (n :: l :: rest)) with (ret (n, l)). rewrite bind_ret. cbv beta iota zeta.
    by rewrite Hrot, bind_Ok.
  - intros i Hi. destruct wl as [t|].
    + destruct (Hwl t eq_refl) as (n' & l' & rest' & Ht & Hl).
      destruct (select1_Ok n' l' rest' t i Ht) as (w & Hw & _); [lia|]. eauto.
    + destruct (select1_Ok n l [3] (zeros [n; l; 3]) i eq_refl Hi) as (w & Hw & _). eauto.
  - by intros ->.
  - by intros t ->.
Qed.


End Forward.

